(** * The execution engine of minishell

    A shallow embedding of the executor of the shell (executor.c,
    executor_ultis2.c, ft_pwd.c, the echo built-in and the system-call
    wrappers), followed by the properties of its specification.

    One process is followed at a time.  A function of the C code that can
    write, call [exit], replace the process image or read through a NULL
    pointer is a computation in the monad [M]: it threads the state of the
    process (the shell structure, the global [g_return_value] and the trace
    of what the process did) and either returns a value or halts. *)

From Stdlib Require Import ZArith List String Ascii Bool Lia.
Import ListNotations.
Local Open Scope string_scope.
Local Open Scope list_scope.
Local Open Scope Z_scope.

(** ** C strings *)

(** A Rocq string stands for the bytes of a C string before its
    terminator. *)
Definition NUL : ascii := Ascii.zero.

Definition nl : string := String (ascii_of_nat 10) EmptyString.

(** The value of a byte as [unsigned char]. *)
Definition code (c : ascii) : Z := Z.of_N (N_of_ascii c).

Fixpoint valid_cstr (s : string) : bool :=
  match s with
  | EmptyString => true
  | String c r => negb (Ascii.eqb c NUL) && valid_cstr r
  end.

(** [s[j]]: the byte at offset [j]; the terminator is read at the offset
    [length s]. *)
Definition char_at (s : string) (j : nat) : ascii :=
  match String.get j s with
  | Some c => c
  | None => NUL
  end.

Definition string_tl (s : string) : string :=
  match s with
  | EmptyString => EmptyString
  | String _ r => r
  end.

(** [&s[j]] *)
Fixpoint string_drop (j : nat) (s : string) : string :=
  match j with
  | O => s
  | S j' => string_drop j' (string_tl s)
  end.

(** Modelled from the spec: libft's ft_strncmp is not under src/.  The
    spec has the names compared by exact match, which the calls get from
    the contract of C's strncmp with [n] one more than the length of the
    literal: at most [n] bytes are compared, as unsigned char, and the
    comparison ends at a terminator.  Both arguments are read, so a NULL
    argument is a faulting read: see [arg]. *)
Fixpoint ft_strncmp (s1 s2 : string) (n : nat) : Z :=
  match n with
  | O => 0
  | S n' =>
      let c1 := char_at s1 0 in
      let c2 := char_at s2 0 in
      if negb (Ascii.eqb c1 c2) then code c1 - code c2
      else if Ascii.eqb c1 NUL then 0
      else ft_strncmp (string_tl s1) (string_tl s2) n'
  end.

(** Modelled from the spec: libft's ft_strchr is not under src/.  The
    spec has the resolver ask whether argv[0] contains a path separator:
    the contract of C's strchr, the offset of the first [c] in [s], [None]
    for the NULL result. *)
Fixpoint ft_strchr (s : string) (c : ascii) : option nat :=
  match s with
  | EmptyString => if Ascii.eqb c NUL then Some O else None
  | String a r =>
      if Ascii.eqb a c then Some O
      else if Ascii.eqb a NUL then None
      else option_map S (ft_strchr r c)
  end.

(** ** The data model *)

(** One stage of the pipeline ([t_cmds]).  [str] is the NULL-terminated
    argument vector: the list holds the arguments, the NULL is the slot at
    index [length str].  The stages are chained by [next] in the C code;
    here a pipeline is the list of its stages. *)
Record t_cmds := mk_cmds {
  str : list string;
  pipefd : Z * Z;
  pid : Z
}.

(** The shell session ([t_shell]).  [env] is the NULL-terminated array of
    NAME=VALUE strings, [None] when the pointer itself is NULL. *)
Record t_shell := mk_shell {
  cmds : list t_cmds;
  env : option (list string);
  stop : bool
}.

Definition STDIN : Z := 0.
Definition STDOUT : Z := 1.
Definition STDERR : Z := 2.

(** What a process does that another one can observe, in the order of
    the calls.  [EvWrite] is a write on a descriptor at the time of the
    call (ft_putstr_fd, ft_putchar_fd).  [EvPrintf] is a text handed to
    printf: stdio keeps it in the buffer of stdout, so it is no write on
    the descriptor 1 at that point; it reaches whatever the descriptor 1
    is when the buffer is flushed, which no function modelled here asks
    for. *)
Inductive event :=
| EvWrite (fd : Z) (s : string)
| EvPrintf (s : string)
| EvPerror (s : string)
| EvClose (fd : Z)
| EvDup (fd new_fd : Z)
| EvDup2 (fd1 fd2 : Z)
| EvPipe (rd wr : Z)
| EvFork (child : Z)
| EvWaitpid (p : Z).

Record state := mk_state {
  shell : t_shell;
  g_return_value : Z;
  trace : list event
}.

(** Reading through a NULL pointer, or past the end of an array. *)
Inductive fault := NullDeref | OutOfBounds.

(** The ways a computation does not return to its caller: [exit(status)],
    a successful execve (the image is replaced), a faulting read. *)
Inductive halt :=
| Exit (status : Z)
| Exec (path : string)
| Crash (f : fault).

Inductive res (A : Type) :=
| Ret (a : A)
| Halt (h : halt).
Arguments Ret {A} a.
Arguments Halt {A} h.

Definition M (A : Type) : Type := state -> res A * state.

Definition ret {A} (a : A) : M A := fun st => (Ret a, st).

Definition bind {A B} (m : M A) (k : A -> M B) : M B :=
  fun st =>
    match m st with
    | (Ret a, st') => k a st'
    | (Halt h, st') => (Halt h, st')
    end.

Declare Scope monad_scope.
Delimit Scope monad_scope with monad.
Notation "x <- m ;; k" := (bind m (fun x => k))
  (at level 61, m at next level, right associativity) : monad_scope.
Notation "' pat <- m ;; k" := (bind m (fun x => match x with pat => k end))
  (at level 61, pat pattern, m at next level, right associativity) : monad_scope.
Notation "m ;; k" := (bind m (fun _ => k))
  (at level 61, right associativity) : monad_scope.
Local Open Scope monad_scope.

Definition halt_with {A} (h : halt) : M A := fun st => (Halt h, st).
Definition exit {A} (status : Z) : M A := halt_with (Exit status).
Definition crash {A} (f : fault) : M A := halt_with (Crash f).

Definition emit (e : event) : M unit :=
  fun st => (Ret tt, mk_state (shell st) (g_return_value st) (trace st ++ [e])).

Definition get_shell : M t_shell := fun st => (Ret (shell st), st).
Definition get_status : M Z := fun st => (Ret (g_return_value st), st).

Definition set_status (v : Z) : M unit :=
  fun st => (Ret tt, mk_state (shell st) v (trace st)).

Definition set_stop (b : bool) : M unit :=
  fun st =>
    (Ret tt,
     mk_state (mk_shell (cmds (shell st)) (env (shell st)) b)
       (g_return_value st) (trace st)).

(** The bytes written on a descriptor, in order. *)
Fixpoint written (fd : Z) (tr : list event) : string :=
  match tr with
  | [] => EmptyString
  | EvWrite fd' s :: tr' =>
      if fd' =? fd then String.append s (written fd tr') else written fd tr'
  | _ :: tr' => written fd tr'
  end.

(** Modelled from the spec: libft's ft_putstr_fd and ft_putchar_fd are
    not under src/; they write their argument on the descriptor.  perror
    is the C library's. *)
Definition ft_putstr_fd (s : string) (fd : Z) : M unit := emit (EvWrite fd s).
Definition ft_putchar_fd (c : ascii) (fd : Z) : M unit :=
  emit (EvWrite fd (String c EmptyString)).
Definition perror (s : string) : M unit := emit (EvPerror s).

(** ** The argument vector *)

(** What the slot [cmd->str[i]] holds. *)
Inductive slot :=
| Str (s : string)
| Null
| Beyond.

Definition slot_at (cmd : t_cmds) (i : nat) : slot :=
  match nth_error (str cmd) i with
  | Some s => Str s
  | None => if Nat.eqb i (List.length (str cmd)) then Null else Beyond
  end.

(** [cmd->str[i]] read as a string (by ft_strncmp, or indexed). *)
Definition arg (cmd : t_cmds) (i : nat) : M string :=
  match slot_at cmd i with
  | Str s => ret s
  | Null => crash NullDeref
  | Beyond => crash OutOfBounds
  end.

(** The vector from the slot [i] on; the empty list is the NULL slot. *)
Definition args_from (cmd : t_cmds) (i : nat) : M (list string) :=
  if Nat.ltb (List.length (str cmd)) i then crash OutOfBounds
  else ret (skipn i (str cmd)).

(** ** echo *)

(** [while (s[j] == 'n') j++] *)
Fixpoint count_n (s : string) : nat :=
  match s with
  | String c r => if Ascii.eqb c "n" then S (count_n r) else O
  | EmptyString => O
  end.

Definition scan_n (s : string) (j : nat) : nat :=
  (j + count_n (string_drop j s))%nat.

(** The loop of last_check, on the vector from the slot [i] on. *)
Fixpoint last_check_from (rest : list string) (i : nat) : M nat :=
  match rest with
  | [] => crash NullDeref
  | s :: rest' =>
      if ft_strncmp s "-n" 2 =? 0 then
        let j := scan_n s 1 in
        if negb (Ascii.eqb (char_at s j) NUL) then ret i
        else last_check_from rest' (S i)
      else ret i
  end.

Definition last_check (i : nat) (cmd : t_cmds) : M nat :=
  rest <- args_from cmd i ;;
  last_check_from rest i.

(** check_n returns the index and, for its two out-parameters, the values
    of [*check] and [*n] at its end. *)
Definition check_n (cmd : t_cmds) (i : nat) (check : nat) (n : Z)
  : M (nat * nat * Z) :=
  s <- arg cmd i ;;
  if (ft_strncmp s "-n" 2 =? 0) && Nat.eqb i 1 then
    let check1 := scan_n s check in
    let '(i1, check2, n1) :=
      if Ascii.eqb (char_at s check1) NUL then (S i, O, 0)
      else (1%nat, check1, n) in
    i2 <- (if Nat.ltb 0 i1 then last_check i1 cmd else ret i1) ;;
    ret (i2, check2, n1)
  else ret (i, check, n).

(** The printing loop of ft_echo, on the vector from the slot [i] on. *)
Fixpoint echo_args (rest : list string) : M unit :=
  match rest with
  | [] => ret tt
  | s :: rest' =>
      ft_putstr_fd s 1 ;;
      (match rest' with
       | [] => ret tt
       | _ :: _ => ft_putchar_fd " " 1
       end) ;;
      echo_args rest'
  end.

Definition ft_echo (cmd : t_cmds) : M Z :=
  ' (i, check, n) <- check_n cmd 1 1 1 ;;
  rest <- args_from cmd i ;;
  echo_args rest ;;
  (if negb (n =? 0) && negb (Nat.eqb check 0)
   then ft_putchar_fd (ascii_of_nat 10) 1 else ret tt) ;;
  ret 0.

(** ** Wait statuses *)

(** The macros of <sys/wait.h> as glibc defines them on Linux, on the
    [int] that waitpid stores. *)
Definition SIGINT : Z := 2.
Definition SIGQUIT : Z := 3.

Definition signed_char (z : Z) : Z :=
  let b := z mod 256 in if b <? 128 then b else b - 256.

Definition WTERMSIG (status : Z) : Z := Z.land status 127.
Definition WEXITSTATUS (status : Z) : Z :=
  Z.shiftr (Z.land status 65280) 8.
Definition WIFEXITED (status : Z) : bool := WTERMSIG status =? 0.
Definition WIFSIGNALED (status : Z) : bool :=
  0 <? Z.shiftr (signed_char (Z.land status 127 + 1)) 1.

(** The status of a process that called [exit(code)], and of one that a
    signal terminated. *)
Definition W_EXITCODE (code sig : Z) : Z := Z.lor (Z.shiftl code 8) sig.

(** ** The collaborators *)

(** What the executor calls and does not own: the other parts of the
    shell (heredocs, redirections, the remaining built-ins, libft's
    ft_split) and the operating system.  [sys_execve] tells whether the
    image is replaced ([false]: execve returned -1); [sys_waitpid] is the
    status stored for a process; the descriptor calls return -1 when they
    fail. *)
Record externals := mk_externals {
  handle_heredocs : M unit;
  handle_redirections : t_cmds -> M bool;
  ft_cd : t_cmds -> M Z;
  ft_export : t_cmds -> Z -> M Z;
  ft_unset : t_cmds -> M Z;
  ft_env : option (list string) -> M Z;
  ft_exit : t_cmds -> M Z;
  ft_split : string -> ascii -> list string;
  sys_getcwd : state -> Z -> option string;
  sys_access : string -> bool;
  sys_execve : string -> list string -> option (list string) -> bool;
  sys_waitpid : Z -> Z;
  sys_dup : state -> Z -> Z;
  sys_dup2 : state -> Z -> Z -> Z;
  sys_fork : state -> Z;
  sys_pipe : state -> option (Z * Z)
}.

(** PATH_MAX as <limits.h> has it on Linux. *)
Definition PATH_MAX : Z := 4096.

Section Executor.

Variable E : externals.

(** *** The system-call wrappers *)

Definition ft_dup (fd : Z) : M Z :=
  fun st =>
    let new_fd := sys_dup E st fd in
    if new_fd =? -1 then (perror "dup" ;; exit (-1)) st
    else (emit (EvDup fd new_fd) ;; ret new_fd) st.

Definition ft_dup2 (fd1 fd2 : Z) : M unit :=
  fun st =>
    if sys_dup2 E st fd1 fd2 =? -1 then (perror "dup2" ;; exit (-1)) st
    else (emit (EvDup2 fd1 fd2) ;; emit (EvClose fd1)) st.

Definition ft_fork : M Z :=
  fun st =>
    let p := sys_fork E st in
    if p =? -1 then (perror "fork" ;; exit (-1)) st
    else (emit (EvFork p) ;; ret p) st.

Definition ft_pipe : M (Z * Z) :=
  fun st =>
    match sys_pipe E st with
    | None => (perror "pipe" ;; exit (-1)) st
    | Some fd => (emit (EvPipe (fst fd) (snd fd)) ;; ret fd) st
    end.

Definition close (fd : Z) : M unit := emit (EvClose fd).

Definition waitpid (p : Z) : M Z :=
  emit (EvWaitpid p) ;; ret (sys_waitpid E p).

(** *** pwd *)

Definition ft_getcwd : M (option string) :=
  fun st => (Ret (sys_getcwd E st PATH_MAX), st).

Definition ft_pwd : M Z :=
  pwd <- ft_getcwd ;;
  match pwd with
  | Some p => emit (EvPrintf (String.append p nl)) ;; ret 0
  | None => ret 1
  end.

(** *** The built-in registry *)

Definition is_builtin (cmd : t_cmds) : M bool :=
  name <- arg cmd 0 ;;
  if ft_strncmp name "pwd" 4 =? 0 then ret true
  else if ft_strncmp name "echo" 5 =? 0 then ret true
  else if ft_strncmp name "cd" 3 =? 0 then ret true
  else if ft_strncmp name "export" 7 =? 0 then ret true
  else if ft_strncmp name "unset" 6 =? 0 then ret true
  else if ft_strncmp name "env" 4 =? 0 then ret true
  else if ft_strncmp name "exit" 5 =? 0 then ret true
  else ret false.

(** [g_return_value = f(...)] *)
Definition run_builtin (f : M Z) : M Z :=
  v <- f ;; set_status v ;; ret 1.

Definition execute_builtin (cmd : t_cmds) : M Z :=
  name <- arg cmd 0 ;;
  if ft_strncmp name "pwd" 4 =? 0 then run_builtin ft_pwd
  else if ft_strncmp name "echo" 5 =? 0 then run_builtin (ft_echo cmd)
  else if ft_strncmp name "cd" 3 =? 0 then run_builtin (ft_cd E cmd)
  else if ft_strncmp name "export" 7 =? 0 then run_builtin (ft_export E cmd 0)
  else if ft_strncmp name "unset" 6 =? 0 then run_builtin (ft_unset E cmd)
  else if ft_strncmp name "env" 4 =? 0 then
    sh <- get_shell ;; run_builtin (ft_env E (env sh))
  else if ft_strncmp name "exit" 5 =? 0 then run_builtin (ft_exit E cmd)
  else ret 0.

(** *** The path resolver *)

(** [execve(path, cmd->str, shell->env)]: the image is replaced, or the
    call returns -1 and the computation goes on with [on_failure]. *)
Definition execve {A} (path : string) (cmd : t_cmds) (on_failure : M A)
  : M A :=
  sh <- get_shell ;;
  if sys_execve E path (str cmd) (env sh) then halt_with (Exec path)
  else on_failure.

Definition execute_currdir (cmd : t_cmds) : M bool :=
  name <- arg cmd 0 ;;
  if Ascii.eqb (char_at name 0) NUL then
    ft_putstr_fd (String.append "minishell: : command not found" nl) STDERR ;;
    exit 127
  else
    match ft_strchr name "/" with
    | None => ret false
    | Some _ =>
        if sys_access E name then
          execve name cmd
            (ft_putstr_fd "minishell: " STDERR ;;
             perror name ;;
             exit 126)
        else ret false
    end.

(** The search loop of ft_execve over the directories of [path]. *)
Fixpoint ft_execve_loop (cmd : t_cmds) (path : list string) : M unit :=
  match path with
  | [] => ret tt
  | dir :: path' =>
      name <- arg cmd 0 ;;
      let tmp := String.append (String.append dir "/") name in
      if sys_access E tmp then
        execve tmp cmd (perror name ;; exit (-1))
      else ft_execve_loop cmd path'
  end.

(** [path] is [None] for a NULL array. *)
Definition ft_execve {A} (cmd : t_cmds) (path : option (list string)) : M A :=
  (match path with
   | Some dirs => ft_execve_loop cmd dirs
   | None => ret tt
   end) ;;
  name <- arg cmd 0 ;;
  ft_putstr_fd "minishell: " STDERR ;;
  ft_putstr_fd name STDERR ;;
  ft_putstr_fd (String.append ": command not found" nl) STDERR ;;
  exit 127.

(** The loop of execute_cmd over [shell->env]: the entry [shell->env[i]]
    it stops at, [None] for the NULL that ends the array. *)
Fixpoint path_entry (envp : list string) : option string :=
  match envp with
  | [] => None
  | e :: envp' =>
      if ft_strncmp e "PATH=" 5 =? 0 then Some e else path_entry envp'
  end.

Definition execute_cmd {A} (cmd : t_cmds) : M A :=
  match slot_at cmd 0 with
  | Str _ =>
      b <- execute_builtin cmd ;;
      (if b =? 0 then
         c <- execute_currdir cmd ;;
         if negb c then
           sh <- get_shell ;;
           match env sh with
           | None => crash NullDeref
           | Some envp =>
               (match path_entry envp with
                | Some e =>
                    ft_execve cmd (Some (ft_split E (string_drop 5 e) ":"))
                | None => ret tt
                end) ;;
               ft_execve cmd None
           end
         else ret tt
       else ret tt) ;;
      g <- get_status ;;
      exit g
  | _ => exit 0
  end.

(** *** The single-command fast path *)

Definition single_cmd : M bool :=
  sh <- get_shell ;;
  match cmds sh with
  | [] => crash NullDeref
  | c :: _ =>
      b <- is_builtin c ;;
      if b then
        save_stdin <- ft_dup STDIN ;;
        save_stdout <- ft_dup STDOUT ;;
        ok <- handle_redirections E c ;;
        (if ok then execute_builtin c ;; ret tt else ret tt) ;;
        ft_dup2 save_stdin STDIN ;;
        ft_dup2 save_stdout STDOUT ;;
        ret true
      else ret false
  end.

(** *** The exit-status collector *)

(** The body of the loop of ft_waitpid once waitpid has stored
    [status]. *)
Definition collect_status (status : Z) : M unit :=
  (if WIFEXITED status then set_status (WEXITSTATUS status)
   else if WIFSIGNALED status then
     let sig := WTERMSIG status in
     if sig =? SIGINT then set_status 130
     else if sig =? SIGQUIT then set_status 131
     else ret tt
   else ret tt) ;;
  g <- get_status ;;
  if (g =? 130) || (g =? 131) then set_stop true else ret tt.

Fixpoint ft_waitpid_loop (curr : list t_cmds) : M unit :=
  match curr with
  | [] => ret tt
  | c :: next =>
      status <- waitpid (pid c) ;;
      collect_status status ;;
      ft_waitpid_loop next
  end.

Definition ft_waitpid : M unit :=
  sh <- get_shell ;;
  ft_waitpid_loop (cmds sh).

(** *** The pipeline orchestrator *)

(** handle_pipes has an empty body: it writes neither [cmd->pipefd] nor
    [cmd->pid], so the loop of execute and the reaping pass read in a
    stage what the caller of execute left there. *)
Definition handle_pipes (cmd : t_cmds) (prev_fd : Z) : M unit := ret tt.

(** The loop of execute, [curr] being the stages from the current one
    on. *)
Fixpoint execute_loop (curr : list t_cmds) (prev_fd : Z) : M unit :=
  match curr with
  | [] => ret tt
  | c :: next =>
      sh <- get_shell ;;
      if stop sh then ret tt
      else
        handle_pipes c prev_fd ;;
        close prev_fd ;;
        close (snd (pipefd c)) ;;
        execute_loop next (fst (pipefd c))
  end.

Definition execute : M unit :=
  handle_heredocs E ;;
  sh <- get_shell ;;
  match cmds sh with
  | [] => crash NullDeref
  | curr :: next =>
      handled <- (match next with
                  | [] => single_cmd
                  | _ :: _ => ret false
                  end) ;;
      if handled then ret tt
      else
        execute_loop (cmds sh) (-1) ;;
        ft_waitpid
  end.

End Executor.

(** ** Sample data *)

Definition argv (l : list string) : t_cmds := mk_cmds l (0, 0) 0.

Definition st0 : state := mk_state (mk_shell [] (Some []) false) 0 [].

(** A world with one executable, /opt/bin/./tool, where no call fails, the
    process 101 exits with 1, 102 with 0, 103 is killed by SIGINT, 104 by
    SIGKILL and 105 exits with 130. *)
Definition sample_waitpid (p : Z) : Z :=
  if p =? 101 then W_EXITCODE 1 0
  else if p =? 103 then W_EXITCODE 0 SIGINT
  else if p =? 104 then W_EXITCODE 0 9
  else if p =? 105 then W_EXITCODE 130 0
  else W_EXITCODE 0 0.

Definition sample_world : externals :=
  mk_externals
    (ret tt) (fun _ => ret true)
    (fun _ => ret 0) (fun _ _ => ret 0) (fun _ => ret 0) (fun _ => ret 0)
    (fun _ => ret 0)
    (fun s _ => [s])
    (fun _ _ => Some "/home")
    (fun p => String.eqb p "/opt/bin/./tool")
    (fun _ _ _ => true)
    sample_waitpid
    (fun _ fd => fd + 10) (fun _ _ fd2 => fd2) (fun _ => 100)
    (fun _ => Some (3, 4)).

Definition stage (name : string) (rd wr p : Z) : t_cmds :=
  mk_cmds [name] (rd, wr) p.

Definition session (l : list t_cmds) (envp : list string) : state :=
  mk_state (mk_shell l (Some envp) false) 0 [].

Definition builtin_names : list string :=
  ["pwd"; "echo"; "cd"; "export"; "unset"; "env"; "exit"].

(** An argument that suppresses the newline of echo: a '-' followed by
    one or more 'n' and nothing else. *)
Definition n_flag (s : string) : bool :=
  match s with
  | String "-" (String "n" r) => Nat.eqb (count_n r) (String.length r)
  | _ => false
  end.

Definition starts_dash_n (s : string) : bool :=
  match s with
  | String c (String d _) => Ascii.eqb c "-" && Ascii.eqb d "n"
  | _ => false
  end.

(** The state after the events [tr]. *)
Definition extend (st : state) (tr : list event) : state :=
  mk_state (shell st) (g_return_value st) (trace st ++ tr).

(** What the resolver writes when it finds nothing to run. *)
Definition not_found_message (name : string) : string :=
  String.append "minishell: "
    (String.append name (String.append ": command not found" nl)).

(** The directories execute_cmd hands to ft_execve: those of the PATH
    entry of the environment, none when there is no such entry. *)
Definition search_dirs (E : externals) (envp : list string) : list string :=
  match path_entry envp with
  | Some e => ft_split E (string_drop 5 e) ":"
  | None => []
  end.

(** The path ft_execve tries for [name] in the directory [dir]. *)
Definition candidate (dir name : string) : string :=
  String.append (String.append dir "/") name.

(** How the process of a stage ended, as waitpid reports it. *)
Definition exited (E : externals) (c : t_cmds) : bool :=
  WIFEXITED (sys_waitpid E (pid c)).

Definition killed_by (E : externals) (sig : Z) (c : t_cmds) : bool :=
  WIFSIGNALED (sys_waitpid E (pid c))
  && (WTERMSIG (sys_waitpid E (pid c)) =? sig).

(** The events of the loop of execute over the stages [curr], entered
    with [prev_fd], when it is not stopped; those of the reaping pass. *)
Fixpoint launch_events (prev_fd : Z) (curr : list t_cmds) : list event :=
  match curr with
  | [] => []
  | c :: next =>
      EvClose prev_fd :: EvClose (snd (pipefd c))
      :: launch_events (fst (pipefd c)) next
  end.

Definition wait_events (curr : list t_cmds) : list event :=
  map (fun c => EvWaitpid (pid c)) curr.

Definition is_fork (e : event) : bool :=
  match e with EvFork _ => true | _ => false end.

Definition is_pipe (e : event) : bool :=
  match e with EvPipe _ _ => true | _ => false end.

Definition is_dup2 (e : event) : bool :=
  match e with EvDup2 _ _ => true | _ => false end.

Definition count (p : event -> bool) (tr : list event) : nat :=
  List.length (filter p tr).

(** A stage whose end ft_waitpid turns into a status, and that status. *)
Definition mapped (E : externals) (c : t_cmds) : bool :=
  exited E c || killed_by E SIGINT c || killed_by E SIGQUIT c.

Definition stage_status (E : externals) (c : t_cmds) : Z :=
  if exited E c then WEXITSTATUS (sys_waitpid E (pid c))
  else if killed_by E SIGINT c then 130
  else 131.

(** A stage that exits normally with a code other than 130 and 131. *)
Definition exits_quietly (E : externals) (c : t_cmds) : bool :=
  exited E c
  && negb (WEXITSTATUS (sys_waitpid E (pid c)) =? 130)
  && negb (WEXITSTATUS (sys_waitpid E (pid c)) =? 131).

(** The two closes of the loop of execute that name descriptors of the
    stage [c]: its write end in its own turn, its read end in the next. *)
Definition stage_closes (c : t_cmds) : list event :=
  [EvClose (snd (pipefd c)); EvClose (fst (pipefd c))].

(** The sample world with redirections that fail. *)
Definition sample_world_no_redirection : externals :=
  mk_externals
    (handle_heredocs sample_world) (fun _ => ret false)
    (ft_cd sample_world) (ft_export sample_world) (ft_unset sample_world)
    (ft_env sample_world) (ft_exit sample_world) (ft_split sample_world)
    (sys_getcwd sample_world) (sys_access sample_world)
    (sys_execve sample_world) (sys_waitpid sample_world)
    (sys_dup sample_world) (sys_dup2 sample_world) (sys_fork sample_world)
    (sys_pipe sample_world).

(** ** C strings: lemmas *)

Lemma code_inj (c1 c2 : ascii) : code c1 - code c2 = 0 -> c1 = c2.
Proof.
  unfold code. intros H.
  assert (Hn : N_of_ascii c1 = N_of_ascii c2) by lia.
  rewrite <- (ascii_N_embedding c1), <- (ascii_N_embedding c2).
  now rewrite Hn.
Qed.

Lemma code_diff (c1 c2 : ascii) : c1 <> c2 -> code c1 - code c2 <> 0.
Proof. intros Hne H. now apply code_inj in H. Qed.

Lemma ft_strncmp_S (s1 s2 : string) (n : nat) :
  ft_strncmp s1 s2 (S n) =
  if negb (Ascii.eqb (char_at s1 0) (char_at s2 0))
  then code (char_at s1 0) - code (char_at s2 0)
  else if Ascii.eqb (char_at s1 0) NUL then 0
       else ft_strncmp (string_tl s1) (string_tl s2) n.
Proof. reflexivity. Qed.

Lemma char_at_0 (c : ascii) (r : string) : char_at (String c r) 0 = c.
Proof. reflexivity. Qed.

Lemma char_at_empty (j : nat) : char_at EmptyString j = NUL.
Proof. now destruct j. Qed.

Lemma ft_strncmp_exact (s2 : string) :
  forall s1, valid_cstr s1 = true -> valid_cstr s2 = true ->
    (ft_strncmp s1 s2 (S (String.length s2)) = 0 <-> s1 = s2).
Proof.
  induction s2 as [|a r2 IH]; intros s1 V1 V2;
    destruct s1 as [|c r1]; cbn [String.length]; rewrite ft_strncmp_S;
    rewrite ?char_at_0, ?char_at_empty; cbn [string_tl];
    cbn [valid_cstr] in V1, V2;
    try (apply andb_true_iff in V1 as [Hc V1]; apply negb_true_iff in Hc);
    try (apply andb_true_iff in V2 as [Ha V2]; apply negb_true_iff in Ha).
  - rewrite Ascii.eqb_refl. cbn. tauto.
  - rewrite Hc. cbn [negb].
    split; [intros H; apply code_diff in H; [easy|] | discriminate].
    intros ->. now rewrite Ascii.eqb_refl in Hc.
  - rewrite Ascii.eqb_sym, Ha. cbn [negb].
    split; [intros H; apply code_diff in H; [easy|] | discriminate].
    intros <-. now rewrite Ascii.eqb_refl in Ha.
  - destruct (Ascii.eqb_spec c a) as [->|Hne]; cbn [negb].
    + rewrite Ha, (IH r1 V1 V2).
      split; [intros ->; reflexivity | now inversion 1].
    + split; [intros H; now apply code_diff in H | inversion 1; contradiction].
Qed.

Lemma strncmp_test (name lit : string) (n : nat) :
  valid_cstr name = true -> valid_cstr lit = true ->
  n = S (String.length lit) ->
  (ft_strncmp name lit n =? 0) = String.eqb name lit.
Proof.
  intros V1 V2 ->.
  destruct (String.eqb_spec name lit) as [->|Hne].
  - apply Z.eqb_eq. now apply ft_strncmp_exact.
  - apply Z.eqb_neq. intros H. now apply ft_strncmp_exact in H.
Qed.

Lemma arg0 (cmd : t_cmds) (name : string) (rest : list string) (st : state) :
  str cmd = name :: rest -> arg cmd 0 st = (Ret name, st).
Proof. unfold arg, slot_at. now intros ->. Qed.

Ltac strncmp_tests V :=
  repeat (rewrite (strncmp_test _ _ _ V) by reflexivity).

Lemma is_builtin_names (cmd : t_cmds) (name : string) (rest : list string)
  (st : state) :
  str cmd = name :: rest -> valid_cstr name = true ->
  is_builtin cmd st = (Ret (existsb (String.eqb name) builtin_names), st).
Proof.
  intros Hs V. unfold is_builtin, bind. rewrite (arg0 _ _ _ _ Hs).
  strncmp_tests V. cbn [existsb builtin_names].
  repeat match goal with
         | |- context [String.eqb name ?l] => destruct (String.eqb name l); [reflexivity|]
         end.
  reflexivity.
Qed.

Lemma existsb_names (name : string) :
  existsb (String.eqb name) builtin_names = true <-> In name builtin_names.
Proof.
  rewrite existsb_exists. split.
  - intros [x [Hin Heq]]. apply String.eqb_eq in Heq. now subst.
  - intros Hin. exists name. split; [assumption | apply String.eqb_refl].
Qed.

Lemma execute_builtin_other (E : externals) (cmd : t_cmds) (name : string)
  (rest : list string) (st : state) :
  str cmd = name :: rest -> valid_cstr name = true ->
  ~ In name builtin_names ->
  execute_builtin E cmd st = (Ret 0, st).
Proof.
  intros Hs V Hn. unfold execute_builtin, bind. rewrite (arg0 _ _ _ _ Hs).
  strncmp_tests V.
  repeat match goal with
         | |- context [String.eqb name ?l] =>
             destruct (String.eqb_spec name l) as [->|_];
             [exfalso; apply Hn; cbn; tauto|]
         end.
  reflexivity.
Qed.

Lemma run_builtin_not_0 (f : M Z) (st : state) :
  fst (run_builtin f st) <> Ret 0.
Proof.
  unfold run_builtin, bind. destruct (f st) as [[v|h] st']; cbn; discriminate.
Qed.

Lemma execute_builtin_known (E : externals) (cmd : t_cmds) (name : string)
  (rest : list string) (st : state) :
  str cmd = name :: rest -> valid_cstr name = true ->
  In name builtin_names ->
  fst (execute_builtin E cmd st) <> Ret 0.
Proof.
  intros Hs V Hin. unfold execute_builtin, bind. rewrite (arg0 _ _ _ _ Hs).
  strncmp_tests V.
  cbn in Hin.
  repeat (destruct Hin as [<-|Hin]; [cbn; try apply run_builtin_not_0|]).
  - contradiction.
Qed.

(** ** echo: lemmas *)

Lemma append_nil_r (s : string) : String.append s EmptyString = s.
Proof. induction s; cbn; [reflexivity | now f_equal]. Qed.

Lemma append_assoc (a b c : string) :
  String.append (String.append a b) c = String.append a (String.append b c).
Proof. induction a; cbn; [reflexivity | now f_equal]. Qed.

Lemma written_app (fd : Z) (a b : list event) :
  written fd (a ++ b) = String.append (written fd a) (written fd b).
Proof.
  induction a as [|e a IH]; [reflexivity|].
  destruct e; cbn; try assumption.
  destruct (fd0 =? fd); [|assumption].
  now rewrite IH, append_assoc.
Qed.

Lemma extend_nil (st : state) : extend st [] = st.
Proof. destruct st. unfold extend. cbn. now rewrite app_nil_r. Qed.

Lemma extend_extend (st : state) (a b : list event) :
  extend (extend st a) b = extend st (a ++ b).
Proof. unfold extend. cbn. now rewrite app_assoc. Qed.

Lemma emit_extend (e : event) (st : state) : emit e st = (Ret tt, extend st [e]).
Proof. reflexivity. Qed.

Lemma strncmp_dash_n (s : string) :
  (ft_strncmp s "-n" 2 =? 0) = starts_dash_n s.
Proof.
  destruct s as [|c s]; [reflexivity|].
  rewrite ft_strncmp_S, !char_at_0. cbn [string_tl].
  destruct (Ascii.eqb_spec c "-") as [->|Hc]; cbn [negb].
  - change (Ascii.eqb "-" NUL) with false. cbv iota.
    destruct s as [|d s]; [reflexivity|].
    rewrite ft_strncmp_S, !char_at_0. cbn [starts_dash_n].
    rewrite Ascii.eqb_refl. cbn [andb].
    destruct (Ascii.eqb_spec d "n") as [->|Hd]; cbn [negb].
    + reflexivity.
    + apply Z.eqb_neq. now apply code_diff.
  - apply Ascii.eqb_neq in Hc as Hc'.
    replace (starts_dash_n (String c s)) with false
      by (destruct s; cbn; [reflexivity | now rewrite Hc']).
    apply Z.eqb_neq. now apply code_diff.
Qed.

Lemma char_at_length (s : string) : char_at s (String.length s) = NUL.
Proof. induction s; [reflexivity | assumption]. Qed.

Lemma char_at_S (c : ascii) (s : string) (j : nat) :
  char_at (String c s) (S j) = char_at s j.
Proof. reflexivity. Qed.

Lemma starts_dash_n_inv (s : string) :
  starts_dash_n s = true -> exists r, s = String "-" (String "n" r).
Proof.
  destruct s as [|c [|d r]]; cbn; try discriminate.
  intros H. apply andb_true_iff in H as [Hc Hd].
  apply Ascii.eqb_eq in Hc, Hd. subst. now exists r.
Qed.

Lemma n_flag_inv (s : string) :
  n_flag s = true ->
  exists r, s = String "-" (String "n" r) /\ count_n r = String.length r.
Proof.
  destruct s as [|c [|d r]]; cbn; try discriminate.
  - destruct c as [[] [] [] [] [] [] [] []]; discriminate.
  - destruct c as [[] [] [] [] [] [] [] []]; try discriminate.
    destruct d as [[] [] [] [] [] [] [] []]; try discriminate.
    intros H. apply Nat.eqb_eq in H. now exists r.
Qed.

Lemma n_flag_starts (s : string) : n_flag s = true -> starts_dash_n s = true.
Proof. intros H. now destruct (n_flag_inv s H) as [r [-> _]]. Qed.

Lemma scan_n_flag (r : string) :
  scan_n (String "-" (String "n" r)) 1 = (2 + count_n r)%nat.
Proof. unfold scan_n. cbn. lia. Qed.

Lemma n_flag_end (s : string) :
  n_flag s = true -> char_at s (scan_n s 1) = NUL.
Proof.
  intros H. destruct (n_flag_inv s H) as [r [-> Hr]].
  rewrite scan_n_flag, Hr. cbn [Nat.add]. rewrite !char_at_S.
  apply char_at_length.
Qed.

Lemma count_n_stop (r : string) :
  valid_cstr r = true -> count_n r <> String.length r ->
  Ascii.eqb (char_at r (count_n r)) NUL = false.
Proof.
  induction r as [|c r IH]; cbn [count_n String.length valid_cstr]; intros V H.
  - contradiction.
  - apply andb_true_iff in V as [Hc V].
    destruct (Ascii.eqb c "n").
    + rewrite char_at_S. apply IH; [assumption | lia].
    + rewrite char_at_0. now apply negb_true_iff.
Qed.

Lemma not_n_flag_end (s : string) :
  valid_cstr s = true -> starts_dash_n s = true -> n_flag s = false ->
  Ascii.eqb (char_at s (scan_n s 1)) NUL = false.
Proof.
  intros V Hs H. destruct (starts_dash_n_inv s Hs) as [r ->].
  rewrite scan_n_flag. cbn in H. apply Nat.eqb_neq in H.
  cbn [Nat.add]. rewrite !char_at_S.
  cbn in V. now apply count_n_stop.
Qed.

Lemma last_check_from_flags (flags rest : list string) :
  forall (i : nat) (st : state),
    forallb n_flag flags = true ->
    last_check_from (flags ++ rest) i st
    = last_check_from rest (i + List.length flags) st.
Proof.
  induction flags as [|f flags IH]; intros i st H.
  - cbn. now rewrite Nat.add_0_r.
  - cbn in H. apply andb_true_iff in H as [Hf H].
    cbn [app last_check_from List.length].
    rewrite strncmp_dash_n, (n_flag_starts f Hf), (n_flag_end f Hf).
    rewrite Ascii.eqb_refl. cbn [negb]. rewrite (IH (S i) st H).
    f_equal. lia.
Qed.

Lemma last_check_from_stop (r : string) (rs : list string) (i : nat)
  (st : state) :
  valid_cstr r = true -> n_flag r = false ->
  last_check_from (r :: rs) i st = (Ret i, st).
Proof.
  intros V H. cbn [last_check_from]. rewrite strncmp_dash_n.
  destruct (starts_dash_n r) eqn:Hs; [|reflexivity].
  now rewrite (not_n_flag_end r V Hs H).
Qed.

Lemma args_from_skip (cmd : t_cmds) (pre rest : list string) (st : state) :
  str cmd = pre ++ rest ->
  args_from cmd (List.length pre) st = (Ret rest, st).
Proof.
  intros Hs. unfold args_from. rewrite Hs, length_app.
  replace (Nat.ltb _ _) with false by (symmetry; apply Nat.ltb_ge; lia).
  unfold ret. f_equal. f_equal.
  rewrite skipn_app, Nat.sub_diag, skipn_all. reflexivity.
Qed.

Lemma arg1 (cmd : t_cmds) (a0 a1 : string) (rest : list string) (st : state) :
  str cmd = a0 :: a1 :: rest -> arg cmd 1 st = (Ret a1, st).
Proof. unfold arg, slot_at. now intros ->. Qed.

(** check_n when the first argument is a flag: the scanner goes on from
    the slot 2. *)
Lemma check_n_flag (cmd : t_cmds) (a0 f : string) (rest : list string)
  (st : state) :
  str cmd = a0 :: f :: rest -> n_flag f = true ->
  check_n cmd 1 1 1 st
  = (i2 <- last_check_from rest 2 ;; ret (i2, O, 0)) st.
Proof.
  intros Hs Hf. unfold check_n. unfold bind at 1. rewrite (arg1 _ _ _ _ _ Hs).
  rewrite strncmp_dash_n, (n_flag_starts f Hf), (n_flag_end f Hf).
  cbn [andb Nat.eqb]. rewrite Ascii.eqb_refl. cbn [Nat.ltb Nat.leb].
  unfold last_check, bind.
  change 2%nat with (List.length [a0; f]) at 1.
  now rewrite (args_from_skip cmd [a0; f] rest st Hs).
Qed.

(** check_n when the first argument is not a flag. *)
Lemma check_n_no_flag (cmd : t_cmds) (a0 r : string) (rs : list string)
  (st : state) :
  str cmd = a0 :: r :: rs -> valid_cstr r = true -> n_flag r = false ->
  exists check, check <> O /\ check_n cmd 1 1 1 st = (Ret (1%nat, check, 1), st).
Proof.
  intros Hs V H. unfold check_n. unfold bind at 1. rewrite (arg1 _ _ _ _ _ Hs).
  rewrite strncmp_dash_n. destruct (starts_dash_n r) eqn:Hd.
  - cbn [andb Nat.eqb]. rewrite (not_n_flag_end r V Hd H).
    cbn [Nat.ltb Nat.leb]. unfold last_check, bind.
    change 1%nat with (List.length [a0]) at 1.
    rewrite (args_from_skip cmd [a0] (r :: rs) st Hs).
    rewrite (last_check_from_stop r rs 1 st V H).
    exists (scan_n r 1). split; [unfold scan_n; lia | reflexivity].
  - exists 1%nat. split; [discriminate | reflexivity].
Qed.

Lemma echo_args_writes (rest : list string) :
  forall st, exists tr,
    echo_args rest st = (Ret tt, extend st tr)
    /\ written STDOUT tr = String.concat " " rest
    /\ written STDERR tr = EmptyString.
Proof.
  induction rest as [|s rest IH]; intros st.
  - exists []. now rewrite extend_nil.
  - cbn [echo_args]. unfold bind at 1, ft_putstr_fd. rewrite emit_extend.
    destruct rest as [|s' rest'].
    + exists [EvWrite 1 s]. repeat split. cbn. apply append_nil_r.
    + unfold bind at 1, ft_putchar_fd. rewrite emit_extend.
      destruct (IH (extend (extend st [EvWrite 1 s]) [EvWrite 1 " "]))
        as [tr [Hrun [Hout Herr]]].
      exists ([EvWrite 1 s] ++ [EvWrite 1 " "] ++ tr).
      rewrite Hrun, !extend_extend. repeat split.
      * rewrite !written_app, Hout. cbn [written String.concat].
        change (1 =? STDOUT) with true. cbv iota.
        now rewrite !append_nil_r.
      * rewrite !written_app, Herr. reflexivity.
Qed.

(** With an argument that is not a flag after the leading flags, echo
    writes that argument and the following ones separated by single
    spaces, ends the line exactly when there is no leading flag, and
    returns 0. *)
Lemma ft_echo_prints (cmd : t_cmds) (a0 : string) (flags : list string)
  (r : string) (rs : list string) (st : state) :
  str cmd = a0 :: flags ++ r :: rs ->
  forallb n_flag flags = true ->
  valid_cstr r = true -> n_flag r = false ->
  exists tr,
    ft_echo cmd st = (Ret 0, extend st tr)
    /\ written STDOUT tr
       = String.append (String.concat " " (r :: rs))
           (match flags with [] => nl | _ :: _ => EmptyString end).
Proof.
  intros Hs Hfl V Hr. unfold ft_echo. unfold bind at 1.
  destruct flags as [|f fs].
  - destruct (check_n_no_flag cmd a0 r rs st Hs V Hr) as [check [Hc ->]].
    unfold bind at 1. change 1%nat with (List.length [a0]) at 1.
    rewrite (args_from_skip cmd [a0] (r :: rs) st Hs).
    unfold bind at 1.
    destruct (echo_args_writes (r :: rs) st) as [tr [-> [Hout _]]].
    apply Nat.eqb_neq in Hc. rewrite Hc. cbn [Z.eqb negb andb].
    unfold bind, ft_putchar_fd. rewrite emit_extend, extend_extend.
    eexists. split; [reflexivity|].
    rewrite written_app, Hout. reflexivity.
  - cbn in Hfl. apply andb_true_iff in Hfl as [Hf Hfl].
    rewrite (check_n_flag cmd a0 f (fs ++ r :: rs) st Hs Hf).
    unfold bind at 1.
    rewrite (last_check_from_flags fs (r :: rs) 2 st Hfl).
    rewrite (last_check_from_stop r rs _ st V Hr). unfold ret at 1.
    unfold bind at 1.
    change (2 + List.length fs)%nat with (List.length (a0 :: f :: fs)).
    rewrite (args_from_skip cmd (a0 :: f :: fs) (r :: rs) st Hs).
    unfold bind at 1.
    destruct (echo_args_writes (r :: rs) st) as [tr [-> [Hout _]]].
    cbn [Z.eqb negb andb]. unfold bind, ret.
    exists tr. split; [reflexivity|].
    now rewrite Hout, append_nil_r.
Qed.

(** What the specification gives as examples of echo. *)
Lemma ft_echo_examples :
  (let r := ft_echo (argv ["echo"; "-n"; "a"; "b"]) st0 in
   fst r = Ret 0 /\ written STDOUT (trace (snd r)) = "a b")
  /\ (let r := ft_echo (argv ["echo"; "a"; "b"]) st0 in
      fst r = Ret 0
      /\ written STDOUT (trace (snd r)) = String.append "a b" nl)
  /\ (let r := ft_echo (argv ["echo"; "-n"; "-n"; "a"]) st0 in
      fst r = Ret 0 /\ written STDOUT (trace (snd r)) = "a")
  /\ (let r := ft_echo (argv ["echo"; "-nx"; "a"]) st0 in
      fst r = Ret 0
      /\ written STDOUT (trace (snd r)) = String.append "-nx a" nl).
Proof. repeat split. Qed.

(** C4 (the code at the input where it departs from the claim): on
    [echo -n], and on [echo] alone, ft_echo hands the NULL that ends the
    argument vector to ft_strncmp: it writes nothing and does not return
    the status 0. *)
Theorem ft_echo_flag_only_faults (st : state) :
  ft_echo (argv ["echo"; "-n"]) st = (Halt (Crash NullDeref), st)
  /\ ft_echo (argv ["echo"]) st = (Halt (Crash NullDeref), st).
Proof. split; reflexivity. Qed.

(** C9: when every argument of echo is a newline-suppression flag, the
    scanner of the trailing flags goes on from the slot 2 to the slot that
    holds the NULL ending the argument vector, and gives it to the string
    comparison: echo ends on the read through NULL. *)
Theorem echo_flags_reach_null_slot (cmd : t_cmds) (a0 f : string)
  (flags : list string) (st : state) :
  str cmd = a0 :: f :: flags ->
  forallb n_flag (f :: flags) = true ->
  slot_at cmd (List.length (str cmd)) = Null
  /\ last_check 2 cmd st = last_check (List.length (str cmd)) cmd st
  /\ last_check (List.length (str cmd)) cmd st = (Halt (Crash NullDeref), st)
  /\ arg cmd (List.length (str cmd)) st = (Halt (Crash NullDeref), st)
  /\ ft_echo cmd st = (Halt (Crash NullDeref), st).
Proof.
  intros Hs H. cbn [forallb] in H. apply andb_true_iff in H as [Hf Hfl].
  assert (Hnull : slot_at cmd (List.length (str cmd)) = Null).
  { unfold slot_at.
    replace (nth_error (str cmd) (List.length (str cmd))) with (@None string)
      by (symmetry; now apply nth_error_None).
    now rewrite Nat.eqb_refl. }
  assert (Hend : last_check (List.length (str cmd)) cmd st
                 = (Halt (Crash NullDeref), st)).
  { unfold last_check, bind.
    rewrite (args_from_skip cmd (str cmd) [] st) by now rewrite app_nil_r.
    reflexivity. }
  assert (Hscan : last_check_from flags 2 st = (Halt (Crash NullDeref), st)).
  { rewrite <- (app_nil_r flags).
    now rewrite (last_check_from_flags flags [] 2 st Hfl). }
  repeat split.
  - exact Hnull.
  - rewrite Hend. unfold last_check, bind.
    change 2%nat with (List.length [a0; f]) at 1.
    rewrite (args_from_skip cmd [a0; f] flags st Hs). exact Hscan.
  - exact Hend.
  - unfold arg. now rewrite Hnull.
  - unfold ft_echo. unfold bind at 1.
    rewrite (check_n_flag cmd a0 f flags st Hs Hf).
    unfold bind. now rewrite Hscan.
Qed.

Lemma echo_flags_reach_null_slot_witness :
  forallb n_flag ["-n"; "-nn"] = true
  /\ ft_echo (argv ["echo"; "-n"; "-nn"]) st0 = (Halt (Crash NullDeref), st0).
Proof.
  split; [reflexivity|].
  apply (echo_flags_reach_null_slot (argv ["echo"; "-n"; "-nn"])
           "echo" "-n" ["-nn"] st0); reflexivity.
Defined.

(** ** The built-in registry: theorems *)

(** C8: is_builtin answers true exactly for the seven names pwd, echo,
    cd, export, unset, env and exit, compared as whole strings (pw and
    pwdx are not recognised), and for any other name execute_builtin
    returns 0, not handled, and leaves the state as it was; for the seven
    names it does not return 0. *)
Theorem builtin_dispatch_exact (E : externals) (cmd : t_cmds) (name : string)
  (rest : list string) (st : state) :
  str cmd = name :: rest -> valid_cstr name = true ->
  (is_builtin cmd st = (Ret true, st) <-> In name builtin_names)
  /\ (is_builtin cmd st = (Ret false, st) <-> ~ In name builtin_names)
  /\ (~ In name builtin_names -> execute_builtin E cmd st = (Ret 0, st))
  /\ (In name builtin_names -> fst (execute_builtin E cmd st) <> Ret 0)
  /\ is_builtin (argv ["pw"]) st = (Ret false, st)
  /\ is_builtin (argv ["pwdx"]) st = (Ret false, st).
Proof.
  intros Hs V. rewrite (is_builtin_names cmd name rest st Hs V).
  pose proof (existsb_names name) as Hn.
  split; [|split; [|split; [|split; [|split; reflexivity]]]].
  - rewrite <- Hn. split; [now inversion 1 | now intros ->].
  - rewrite <- Hn.
    destruct (existsb (String.eqb name) builtin_names); split;
      congruence || (now intros H).
  - now apply (execute_builtin_other E cmd name rest).
  - now apply (execute_builtin_known E cmd name rest).
Qed.

Lemma builtin_dispatch_exact_witness :
  is_builtin (argv ["pwd"; "-L"]) st0 = (Ret true, st0) <-> In "pwd" builtin_names.
Proof.
  apply (builtin_dispatch_exact sample_world (argv ["pwd"; "-L"]) "pwd" ["-L"] st0);
    reflexivity.
Defined.

(** ** The path resolver: theorems *)

Lemma slot0 (cmd : t_cmds) (name : string) (rest : list string) :
  str cmd = name :: rest -> slot_at cmd 0 = Str name.
Proof. unfold slot_at. now intros ->. Qed.

Lemma first_byte (name : string) :
  valid_cstr name = true -> name <> EmptyString ->
  Ascii.eqb (char_at name 0) NUL = false.
Proof.
  destruct name as [|c r]; [contradiction|]. cbn. intros V _.
  apply andb_true_iff in V as [Hc _]. now apply negb_true_iff.
Qed.

Lemma separator_not_builtin (name : string) :
  ft_strchr name "/" <> None -> ~ In name builtin_names.
Proof.
  intros H Hin. cbn in Hin.
  repeat (destruct Hin as [<-|Hin]; [now apply H|]). contradiction.
Qed.

Lemma ft_execve_loop_none (E : externals) (cmd : t_cmds) (name : string)
  (rest dirs : list string) (st : state) :
  str cmd = name :: rest ->
  (forall dir, In dir dirs -> sys_access E (candidate dir name) = false) ->
  ft_execve_loop E cmd dirs st = (Ret tt, st).
Proof.
  intros Hs. induction dirs as [|dir dirs IH]; intros Hno; [reflexivity|].
  cbn [ft_execve_loop]. unfold bind at 1. rewrite (arg0 _ _ _ _ Hs).
  fold (candidate dir name). rewrite (Hno dir) by now left.
  apply IH. intros d Hd. apply Hno. now right.
Qed.

Lemma ft_execve_not_found (E : externals) (A : Type) (cmd : t_cmds)
  (name : string) (rest : list string) (path : option (list string))
  (st : state) :
  str cmd = name :: rest ->
  (forall dirs dir, path = Some dirs -> In dir dirs ->
                    sys_access E (candidate dir name) = false) ->
  exists tr,
    ft_execve E (A := A) cmd path st = (Halt (Exit 127), extend st tr)
    /\ written STDERR tr = not_found_message name.
Proof.
  intros Hs Hno. unfold ft_execve. unfold bind at 1.
  assert (Hloop : match path with
                  | Some dirs => ft_execve_loop E cmd dirs
                  | None => ret tt
                  end st = (Ret tt, st)).
  { destruct path as [dirs|]; [|reflexivity].
    apply (ft_execve_loop_none E cmd name rest dirs st Hs).
    intros dir Hd. now apply (Hno dirs). }
  rewrite Hloop. unfold bind at 1. rewrite (arg0 _ _ _ _ Hs).
  unfold bind, ft_putstr_fd, exit, halt_with. rewrite !emit_extend, !extend_extend.
  eexists. split; [reflexivity|].
  cbn [app written]. change (STDERR =? STDERR) with true. cbv iota.
  unfold not_found_message. now rewrite append_nil_r.
Qed.

(** What execute_cmd does once the command is known not to be a built-in
    and execute_currdir has returned false. *)
Lemma execute_cmd_search (E : externals) (A : Type) (cmd : t_cmds)
  (name : string) (rest envp : list string) (st : state) :
  str cmd = name :: rest -> valid_cstr name = true ->
  ~ In name builtin_names ->
  execute_currdir E cmd st = (Ret false, st) ->
  env (shell st) = Some envp ->
  (forall dir, In dir (search_dirs E envp) ->
               sys_access E (candidate dir name) = false) ->
  exists tr,
    execute_cmd E (A := A) cmd st = (Halt (Exit 127), extend st tr)
    /\ written STDERR tr = not_found_message name.
Proof.
  intros Hs V Hnb Hcur Henv Hno. unfold execute_cmd.
  rewrite (slot0 cmd name rest Hs). unfold bind at 1.
  rewrite (execute_builtin_other E cmd name rest st Hs V Hnb).
  unfold bind at 1. cbn [Z.eqb]. unfold bind at 1. rewrite Hcur.
  cbn [negb]. unfold bind at 1, get_shell. rewrite Henv.
  unfold search_dirs in Hno. unfold bind at 1.
  destruct (path_entry envp) as [e|].
  - destruct (ft_execve_not_found E unit cmd name rest
                (Some (ft_split E (string_drop 5 e) ":")) st Hs)
      as [tr [Hrun Hout]].
    { intros dirs dir [= <-]. apply Hno. }
    rewrite Hrun. now exists tr.
  - unfold ret at 1. unfold bind at 1.
    destruct (ft_execve_not_found E unit cmd name rest None st Hs)
      as [tr [Hrun Hout]]; [discriminate|].
    rewrite Hrun. now exists tr.
Qed.

(** C7: with no PATH entry in the environment (the search list is then
    empty), resolving a command name that has no path separator ends the
    process with the status 127 after writing "minishell: <name>: command
    not found" on the standard error, and so does resolving a literal path
    (a name with a separator, such as ./nonexistent) that is not
    accessible.  Resolving is what execute_cmd does with a name that the
    built-in dispatch has not handled.  The last part goes beyond the
    claim: with a PATH entry the literal path ends the same way when it is
    not accessible under any directory of the search list either. *)
Theorem resolve_not_found (E : externals) (A : Type) (cmd : t_cmds)
  (name : string) (rest envp : list string) (st : state) :
  str cmd = name :: rest -> valid_cstr name = true ->
  env (shell st) = Some envp ->
  (ft_strchr name "/" = None -> ~ In name builtin_names ->
   path_entry envp = None ->
   exists tr,
     execute_cmd E (A := A) cmd st = (Halt (Exit 127), extend st tr)
     /\ written STDERR tr = not_found_message name)
  /\ (ft_strchr name "/" <> None -> sys_access E name = false ->
      path_entry envp = None ->
      exists tr,
        execute_cmd E (A := A) cmd st = (Halt (Exit 127), extend st tr)
        /\ written STDERR tr = not_found_message name)
  /\ (ft_strchr name "/" <> None -> sys_access E name = false ->
      (forall dir, In dir (search_dirs E envp) ->
                   sys_access E (candidate dir name) = false) ->
      exists tr,
        execute_cmd E (A := A) cmd st = (Halt (Exit 127), extend st tr)
        /\ written STDERR tr = not_found_message name).
Proof.
  intros Hs V Henv.
  assert (Hlit : ft_strchr name "/" <> None -> sys_access E name = false ->
                 (forall dir, In dir (search_dirs E envp) ->
                              sys_access E (candidate dir name) = false) ->
                 exists tr,
                   execute_cmd E (A := A) cmd st
                   = (Halt (Exit 127), extend st tr)
                   /\ written STDERR tr = not_found_message name).
  { intros Hsep Hacc Hno.
    assert (Hne : name <> EmptyString) by (intros ->; now apply Hsep).
    apply (execute_cmd_search E A cmd name rest envp st Hs V
             (separator_not_builtin name Hsep)); try assumption.
    unfold execute_currdir, bind. rewrite (arg0 _ _ _ _ Hs).
    rewrite (first_byte name V Hne), Hacc.
    now destruct (ft_strchr name "/"). }
  split; [|split].
  - intros Hsep Hnb Hpath.
    destruct (string_dec name EmptyString) as [->|Hne].
    + unfold execute_cmd. rewrite (slot0 cmd _ rest Hs). unfold bind at 1.
      rewrite (execute_builtin_other E cmd _ rest st Hs V Hnb).
      unfold bind at 1. cbn [Z.eqb]. unfold bind at 1.
      unfold execute_currdir. unfold bind at 1. rewrite (arg0 _ _ _ _ Hs).
      cbn. eexists. split; reflexivity.
    + apply (execute_cmd_search E A cmd name rest envp st Hs V Hnb);
        try assumption.
      * unfold execute_currdir, bind. rewrite (arg0 _ _ _ _ Hs).
        now rewrite (first_byte name V Hne), Hsep.
      * unfold search_dirs. rewrite Hpath. intros dir [].
  - intros Hsep Hacc Hpath. apply Hlit; try assumption.
    unfold search_dirs. rewrite Hpath. intros dir [].
  - exact Hlit.
Qed.

Lemma resolve_not_found_witness :
  (exists tr,
      execute_cmd sample_world (A := unit) (argv ["nonexistent_cmd"])
        (session [] ["HOME=/home"])
      = (Halt (Exit 127), extend (session [] ["HOME=/home"]) tr)
      /\ written STDERR tr = not_found_message "nonexistent_cmd")
  /\ (exists tr,
         execute_cmd sample_world (A := unit) (argv ["./nonexistent"])
           (session [] ["HOME=/home"])
         = (Halt (Exit 127), extend (session [] ["HOME=/home"]) tr)
         /\ written STDERR tr = not_found_message "./nonexistent")
  /\ (exists tr,
         execute_cmd sample_world (A := unit) (argv ["./nonexistent"])
           (session [] ["PATH=/opt/bin"])
         = (Halt (Exit 127), extend (session [] ["PATH=/opt/bin"]) tr)
         /\ written STDERR tr = not_found_message "./nonexistent").
Proof.
  split; [|split].
  - apply (proj1 (resolve_not_found sample_world unit
                    (argv ["nonexistent_cmd"]) "nonexistent_cmd" []
                    ["HOME=/home"] (session [] ["HOME=/home"])
                    eq_refl eq_refl eq_refl));
      try reflexivity.
    cbn. intuition discriminate.
  - apply (proj1 (proj2 (resolve_not_found sample_world unit
                           (argv ["./nonexistent"]) "./nonexistent" []
                           ["HOME=/home"] (session [] ["HOME=/home"])
                           eq_refl eq_refl eq_refl)));
      try reflexivity.
    discriminate.
  - apply (proj2 (proj2 (resolve_not_found sample_world unit
                           (argv ["./nonexistent"]) "./nonexistent" []
                           ["PATH=/opt/bin"] (session [] ["PATH=/opt/bin"])
                           eq_refl eq_refl eq_refl)));
      try reflexivity.
    + discriminate.
    + cbn. intros dir [<-|[]]. reflexivity.
Defined.

(** C3 (as amended): a stage whose argv[0] is the empty string writes
    "minishell: : command not found" on the standard error and ends the
    process with the status 127; a stage with no argv[0] at all ends the
    process with the status 0 and writes nothing. *)
Theorem empty_command (E : externals) (A : Type) (cmd : t_cmds) (st : state) :
  (forall rest, str cmd = EmptyString :: rest ->
     execute_cmd E (A := A) cmd st
     = (Halt (Exit 127),
        extend st [EvWrite STDERR (not_found_message EmptyString)]))
  /\ (str cmd = [] -> execute_cmd E (A := A) cmd st = (Halt (Exit 0), st)).
Proof.
  split.
  - intros rest Hs. unfold execute_cmd. rewrite (slot0 cmd _ rest Hs).
    unfold bind at 1.
    rewrite (execute_builtin_other E cmd _ rest st Hs eq_refl)
      by (cbn; intuition discriminate).
    unfold bind at 1. cbn [Z.eqb]. unfold bind at 1.
    unfold execute_currdir. unfold bind at 1. rewrite (arg0 _ _ _ _ Hs).
    reflexivity.
  - intros Hs. unfold execute_cmd, slot_at. now rewrite Hs.
Qed.

Lemma empty_command_witness :
  execute_cmd sample_world (A := unit) (argv [""; "x"]) st0
  = (Halt (Exit 127), extend st0 [EvWrite STDERR (not_found_message "")])
  /\ execute_cmd sample_world (A := unit) (argv []) st0 = (Halt (Exit 0), st0).
Proof.
  split.
  - exact (proj1 (empty_command sample_world unit (argv [""; "x"]) st0)
             ["x"] eq_refl).
  - exact (proj2 (empty_command sample_world unit (argv []) st0) eq_refl).
Defined.

(** C3 as it is written fails: a stage with no argv[0] does not end with
    the status 127 and writes no message. *)
Lemma empty_argv_exits_0 :
  ~ (forall (E : externals) (cmd : t_cmds) (st : state),
        str cmd = [] \/ (exists rest, str cmd = EmptyString :: rest) ->
        exists st',
          execute_cmd E (A := unit) cmd st = (Halt (Exit 127), st')
          /\ written STDERR (trace st')
             = String.append (written STDERR (trace st))
                 (not_found_message EmptyString)).
Proof.
  intros H.
  destruct (H sample_world (argv []) st0 (or_introl eq_refl)) as [st' [Hrun _]].
  discriminate Hrun.
Qed.

(** ** Wait statuses: lemmas *)

Lemma WTERMSIG_range (status : Z) : 0 <= WTERMSIG status < 128.
Proof.
  unfold WTERMSIG. change 127 with (Z.ones 7).
  rewrite Z.land_ones by lia. apply Z.mod_pos_bound. lia.
Qed.

Lemma WIFSIGNALED_spec (status : Z) :
  WIFSIGNALED status = true <-> 1 <= WTERMSIG status <= 126.
Proof.
  unfold WIFSIGNALED. fold (WTERMSIG status).
  pose proof (WTERMSIG_range status) as Hr.
  rewrite Z.shiftr_div_pow2 by lia. change (2 ^ 1) with 2.
  unfold signed_char. rewrite Z.mod_small by lia.
  rewrite Z.ltb_lt.
  destruct (Z.ltb_spec (WTERMSIG status + 1) 128) as [Hlt|Hge].
  - split; intros H.
    + assert (WTERMSIG status <> 0) by (intros H0; rewrite H0 in H; cbn in H; lia).
      lia.
    + apply Z.div_str_pos. lia.
  - replace (WTERMSIG status) with 127 by lia. cbn. lia.
Qed.

Lemma signaled_not_exited (status : Z) :
  WIFSIGNALED status = true -> WIFEXITED status = false.
Proof.
  intros H. apply WIFSIGNALED_spec in H. unfold WIFEXITED.
  apply Z.eqb_neq. lia.
Qed.


(** ** The exit-status collector: lemmas *)

Ltac collect_cases status :=
  unfold collect_status, bind, set_status, get_status, set_stop, ret;
  destruct (WIFEXITED status); [|destruct (WIFSIGNALED status);
    [destruct (WTERMSIG status =? SIGINT);
      [|destruct (WTERMSIG status =? SIGQUIT)]|]];
  cbn -[WEXITSTATUS Z.eqb orb];
  match goal with
  | |- context [if ?b then _ else _] => destruct b eqn:?Hb
  end;
  cbn -[WEXITSTATUS Z.eqb orb].

(** collect_status returns, and touches only the status and the stop
    flag. *)
Lemma collect_status_frame (status : Z) (st : state) :
  fst (collect_status status st) = Ret tt
  /\ cmds (shell (snd (collect_status status st))) = cmds (shell st)
  /\ env (shell (snd (collect_status status st))) = env (shell st)
  /\ trace (snd (collect_status status st)) = trace st.
Proof. collect_cases status; auto. Qed.

Lemma collect_status_stop (status : Z) (st : state) :
  stop (shell (snd (collect_status status st)))
  = stop (shell st)
    || (g_return_value (snd (collect_status status st)) =? 130)
    || (g_return_value (snd (collect_status status st)) =? 131).
Proof.
  collect_cases status;
    try (apply orb_false_iff in Hb as [-> ->]; now rewrite !orb_false_r);
    apply orb_true_iff in Hb as [-> | ->];
    now rewrite ?orb_true_r.
Qed.

Lemma collect_status_exited (status : Z) (st : state) :
  WIFEXITED status = true ->
  g_return_value (snd (collect_status status st)) = WEXITSTATUS status.
Proof.
  intros H. unfold collect_status, bind, set_status, get_status, set_stop, ret.
  rewrite H. cbn -[WEXITSTATUS Z.eqb orb]. now destruct (_ || _).
Qed.

Lemma collect_status_signal (status : Z) (st : state) :
  WIFSIGNALED status = true ->
  g_return_value (snd (collect_status status st))
  = if WTERMSIG status =? SIGINT then 130
    else if WTERMSIG status =? SIGQUIT then 131
    else g_return_value st.
Proof.
  intros H. unfold collect_status, bind, set_status, get_status, set_stop, ret.
  rewrite (signaled_not_exited status H), H.
  destruct (WTERMSIG status =? SIGINT);
    [|destruct (WTERMSIG status =? SIGQUIT)];
    cbn -[Z.eqb orb]; now destruct (_ || _).
Qed.

Lemma ft_waitpid_loop_cons (E : externals) (c : t_cmds) (next : list t_cmds)
  (st : state) :
  ft_waitpid_loop E (c :: next) st
  = ft_waitpid_loop E next
      (snd (collect_status (sys_waitpid E (pid c))
              (extend st [EvWaitpid (pid c)]))).
Proof.
  cbn [ft_waitpid_loop]. unfold bind at 1, waitpid. unfold bind at 1.
  rewrite emit_extend. unfold ret at 1. unfold bind at 1.
  pose proof (collect_status_frame (sys_waitpid E (pid c))
                (extend st [EvWaitpid (pid c)])) as [Hret _].
  destruct (collect_status _ _) as [r st']. cbn in Hret. now subst r.
Qed.

(** The reaping pass returns, waits once for each stage in order, leaves
    the pipeline and the environment as they were and never clears the
    stop flag. *)
Lemma ft_waitpid_loop_frame (E : externals) (curr : list t_cmds) :
  forall st,
    fst (ft_waitpid_loop E curr st) = Ret tt
    /\ cmds (shell (snd (ft_waitpid_loop E curr st))) = cmds (shell st)
    /\ env (shell (snd (ft_waitpid_loop E curr st))) = env (shell st)
    /\ trace (snd (ft_waitpid_loop E curr st)) = trace st ++ wait_events curr
    /\ (stop (shell st) = true ->
        stop (shell (snd (ft_waitpid_loop E curr st))) = true).
Proof.
  induction curr as [|c next IH]; intros st.
  - cbn. rewrite app_nil_r. auto.
  - rewrite ft_waitpid_loop_cons.
    set (st1 := snd (collect_status _ _)).
    destruct (IH st1) as [Hret [Hc [He [Ht Hs]]]].
    pose proof (collect_status_frame (sys_waitpid E (pid c))
                  (extend st [EvWaitpid (pid c)])) as [_ [Hc1 [He1 Ht1]]].
    pose proof (collect_status_stop (sys_waitpid E (pid c))
                  (extend st [EvWaitpid (pid c)])) as Hs1.
    fold st1 in Hc1, He1, Ht1, Hs1.
    repeat split.
    + exact Hret.
    + now rewrite Hc, Hc1.
    + now rewrite He, He1.
    + rewrite Ht, Ht1. cbn. now rewrite <- app_assoc.
    + intros Hstop. apply Hs. rewrite Hs1. cbn. now rewrite Hstop.
Qed.

Lemma ft_waitpid_loop_app (E : externals) (a b : list t_cmds) :
  forall st,
    ft_waitpid_loop E (a ++ b) st
    = ft_waitpid_loop E b (snd (ft_waitpid_loop E a st)).
Proof.
  induction a as [|c a IH]; intros st; [reflexivity|].
  cbn [app]. now rewrite !ft_waitpid_loop_cons, IH.
Qed.

Lemma ft_waitpid_loop_last_exited (E : externals) (front : list t_cmds)
  (c : t_cmds) (st : state) :
  exited E c = true ->
  g_return_value (snd (ft_waitpid_loop E (front ++ [c]) st))
  = WEXITSTATUS (sys_waitpid E (pid c)).
Proof.
  intros H. rewrite ft_waitpid_loop_app, ft_waitpid_loop_cons. cbn [ft_waitpid_loop].
  unfold ret. cbn [snd]. now apply collect_status_exited.
Qed.



Lemma ft_waitpid_run (E : externals) (st : state) :
  ft_waitpid E st = ft_waitpid_loop E (cmds (shell st)) st.
Proof. reflexivity. Qed.

(** ** The exit-status collector: theorems *)





(** C5: when every stage of a pipeline exits normally, the reaping pass
    returns after waiting once for each of the N stages, in order, and
    the status it leaves is the exit code of the last stage; so false |
    true leaves 0. *)
Theorem last_stage_status (E : externals) (st : state)
  (front : list t_cmds) (c : t_cmds) :
  cmds (shell st) = front ++ [c] ->
  forallb (exited E) (front ++ [c]) = true ->
  fst (ft_waitpid E st) = Ret tt
  /\ g_return_value (snd (ft_waitpid E st))
     = WEXITSTATUS (sys_waitpid E (pid c))
  /\ trace (snd (ft_waitpid E st)) = trace st ++ wait_events (front ++ [c])
  /\ List.length (wait_events (front ++ [c])) = S (List.length front).
Proof.
  intros Hc Hall. rewrite ft_waitpid_run, Hc.
  rewrite forallb_app in Hall. apply andb_true_iff in Hall as [_ Hlast].
  cbn [forallb] in Hlast. rewrite andb_true_r in Hlast.
  repeat split.
  - apply ft_waitpid_loop_frame.
  - now apply ft_waitpid_loop_last_exited.
  - apply ft_waitpid_loop_frame.
  - unfold wait_events. rewrite length_map, length_app. cbn. lia.
Qed.

Lemma last_stage_status_witness :
  let st := session [stage "false" 3 4 101; stage "true" 0 0 102] [] in
  forallb (exited sample_world) (cmds (shell st)) = true
  /\ g_return_value (snd (ft_waitpid sample_world st)) = 0
  /\ trace (snd (ft_waitpid sample_world st)) = [EvWaitpid 101; EvWaitpid 102].
Proof.
  pose proof (last_stage_status sample_world
                (session [stage "false" 3 4 101; stage "true" 0 0 102] [])
                [stage "false" 3 4 101] (stage "true" 0 0 102)
                eq_refl eq_refl) as [_ [Hg [Ht _]]].
  split; [reflexivity | split; [exact Hg | exact Ht]].
Defined.

(** ** The pipeline orchestrator: theorems *)

Lemma execute_loop_run (curr : list t_cmds) :
  forall (prev_fd : Z) (st : state),
    stop (shell st) = false ->
    execute_loop curr prev_fd st
    = (Ret tt, extend st (launch_events prev_fd curr)).
Proof.
  induction curr as [|c next IH]; intros prev_fd st Hstop.
  - cbn. now rewrite extend_nil.
  - cbn [execute_loop launch_events]. unfold bind at 1, get_shell.
    rewrite Hstop. unfold handle_pipes, close. unfold bind at 1, ret at 1.
    unfold bind at 1. rewrite emit_extend. unfold bind at 1.
    rewrite emit_extend, extend_extend.
    rewrite IH by exact Hstop. now rewrite extend_extend.
Qed.

Lemma execute_loop_stopped (curr : list t_cmds) (prev_fd : Z) (st : state) :
  stop (shell st) = true -> execute_loop curr prev_fd st = (Ret tt, st).
Proof.
  intros Hstop. destruct curr as [|c next]; [reflexivity|].
  cbn [execute_loop]. unfold bind, get_shell. now rewrite Hstop.
Qed.

(** execute on a pipeline of two stages or more: the loop over the
    stages, then the reaping pass. *)
Lemma execute_pipeline (E : externals) (st st1 : state) (c1 c2 : t_cmds)
  (rest : list t_cmds) :
  handle_heredocs E st = (Ret tt, st1) ->
  cmds (shell st1) = c1 :: c2 :: rest ->
  execute E st
  = ft_waitpid_loop E (c1 :: c2 :: rest)
      (if stop (shell st1) then st1
       else extend st1 (launch_events (-1) (c1 :: c2 :: rest))).
Proof.
  intros Hh Hc. unfold execute. unfold bind at 1. rewrite Hh.
  unfold bind at 1, get_shell. rewrite Hc. unfold bind at 1, ret at 1.
  unfold bind at 1.
  destruct (stop (shell st1)) eqn:Hstop.
  - rewrite execute_loop_stopped by exact Hstop.
    now rewrite ft_waitpid_run, Hc.
  - rewrite execute_loop_run by exact Hstop.
    rewrite ft_waitpid_run. unfold extend at 1. cbn [shell]. now rewrite Hc.
Qed.

Lemma count_app (p : event -> bool) (a b : list event) :
  count p (a ++ b) = (count p a + count p b)%nat.
Proof. unfold count. now rewrite filter_app, length_app. Qed.

Lemma launch_events_closes (p : event -> bool) (curr : list t_cmds) :
  (forall fd, p (EvClose fd) = false) ->
  forall prev_fd, count p (launch_events prev_fd curr) = O.
Proof.
  intros Hp. induction curr as [|c next IH]; intros prev_fd; [reflexivity|].
  cbn [launch_events]. unfold count in *. cbn [filter].
  rewrite !Hp. apply IH.
Qed.

Lemma wait_events_waits (p : event -> bool) (curr : list t_cmds) :
  (forall q, p (EvWaitpid q) = false) -> count p (wait_events curr) = O.
Proof.
  intros Hp. induction curr as [|c next IH]; [reflexivity|].
  unfold count in *. cbn [wait_events map filter]. now rewrite Hp.
Qed.

(** C1 (the code where it departs from the claim): handle_pipes returns
    at once and leaves the process as it was, so on a pipeline of two
    stages or more entered with the stop flag false execute only closes
    the descriptors recorded in the stages and then waits: the events it
    adds hold no pipe, no fork and no dup2, where the claim has one fork
    for each stage. *)
Theorem execute_forks_no_child (E : externals) (st st1 : state)
  (c1 c2 : t_cmds) (rest : list t_cmds) :
  handle_heredocs E st = (Ret tt, st1) ->
  cmds (shell st1) = c1 :: c2 :: rest ->
  stop (shell st1) = false ->
  (forall c prev_fd s, handle_pipes c prev_fd s = (Ret tt, s))
  /\ exists tr,
       trace (snd (execute E st)) = trace st1 ++ tr
       /\ tr = launch_events (-1) (c1 :: c2 :: rest)
               ++ wait_events (c1 :: c2 :: rest)
       /\ count is_fork tr = O
       /\ count is_pipe tr = O
       /\ count is_dup2 tr = O.
Proof.
  intros Hh Hc Hstop. split; [reflexivity|].
  rewrite (execute_pipeline E st st1 c1 c2 rest Hh Hc), Hstop.
  eexists. split; [|split; [reflexivity|]].
  - pose proof (ft_waitpid_loop_frame E (c1 :: c2 :: rest)
                  (extend st1 (launch_events (-1) (c1 :: c2 :: rest))))
      as [_ [_ [_ [Ht _]]]].
    rewrite Ht. unfold extend. cbn [trace]. now rewrite <- app_assoc.
  - rewrite !count_app.
    rewrite !launch_events_closes, !wait_events_waits by reflexivity.
    auto.
Qed.

Lemma execute_forks_no_child_witness :
  let st := session [stage "false" 3 4 101; stage "true" 5 6 102] [] in
  exists tr,
    trace (snd (execute sample_world st)) = trace st ++ tr
    /\ tr = [EvClose (-1); EvClose 4; EvClose 3; EvClose 6;
             EvWaitpid 101; EvWaitpid 102]
    /\ count is_fork tr = O
    /\ count is_pipe tr = O
    /\ count is_dup2 tr = O.
Proof.
  exact (proj2 (execute_forks_no_child sample_world
                  (session [stage "false" 3 4 101; stage "true" 5 6 102] [])
                  (session [stage "false" 3 4 101; stage "true" 5 6 102] [])
                  (stage "false" 3 4 101) (stage "true" 5 6 102) []
                  eq_refl eq_refl eq_refl)).
Defined.



(** A run entered with the stop flag still set: no stage goes through the
    loop of execute, and the flag is still set at the end. *)
Lemma stopped_run_only_waits :
  let st := mk_state
              (mk_shell [stage "ls" 3 4 101; stage "wc" 5 6 102] (Some []) true)
              130 [] in
  execute sample_world st
  = (Ret tt,
     mk_state
       (mk_shell [stage "ls" 3 4 101; stage "wc" 5 6 102] (Some []) true)
       0 [EvWaitpid 101; EvWaitpid 102]).
Proof. reflexivity. Qed.


(** * Further properties of the code *)

(** ** echo *)

(** X1: when an argument that is not a flag follows the leading flags,
    echo writes that argument and all the following ones (flags among
    them, literally) on the standard output, separated by single spaces,
    ends the line exactly when there is no leading flag, writes nothing
    on the standard error, leaves the shell and the status as they were
    and returns 0. *)
Theorem echo_output (cmd : t_cmds) (a0 : string) (flags : list string)
  (r : string) (rs : list string) (st : state) :
  str cmd = a0 :: flags ++ r :: rs ->
  forallb n_flag flags = true ->
  valid_cstr r = true -> n_flag r = false ->
  exists tr,
    ft_echo cmd st = (Ret 0, extend st tr)
    /\ written STDOUT tr
       = String.append (String.concat " " (r :: rs))
           (match flags with [] => nl | _ :: _ => EmptyString end)
    /\ written STDERR tr = EmptyString.
Proof.
  intros Hs Hfl V Hr. unfold ft_echo. unfold bind at 1.
  destruct flags as [|f fs].
  - destruct (check_n_no_flag cmd a0 r rs st Hs V Hr) as [check [Hc ->]].
    unfold bind at 1. change 1%nat with (List.length [a0]) at 1.
    rewrite (args_from_skip cmd [a0] (r :: rs) st Hs).
    unfold bind at 1.
    destruct (echo_args_writes (r :: rs) st) as [tr [-> [Hout Herr]]].
    apply Nat.eqb_neq in Hc. rewrite Hc. cbn [Z.eqb negb andb].
    unfold bind, ft_putchar_fd. rewrite emit_extend, extend_extend.
    eexists. split; [reflexivity|]. split.
    + rewrite written_app, Hout. reflexivity.
    + rewrite written_app, Herr. reflexivity.
  - cbn in Hfl. apply andb_true_iff in Hfl as [Hf Hfl].
    rewrite (check_n_flag cmd a0 f (fs ++ r :: rs) st Hs Hf).
    unfold bind at 1.
    rewrite (last_check_from_flags fs (r :: rs) 2 st Hfl).
    rewrite (last_check_from_stop r rs _ st V Hr). unfold ret at 1.
    unfold bind at 1.
    change (2 + List.length fs)%nat with (List.length (a0 :: f :: fs)).
    rewrite (args_from_skip cmd (a0 :: f :: fs) (r :: rs) st Hs).
    unfold bind at 1.
    destruct (echo_args_writes (r :: rs) st) as [tr [-> [Hout Herr]]].
    cbn [Z.eqb negb andb]. unfold bind, ret.
    exists tr. split; [reflexivity|]. split.
    + now rewrite Hout, append_nil_r.
    + exact Herr.
Qed.

Lemma echo_output_witness :
  exists tr,
    ft_echo (argv ["echo"; "-n"; "-nnn"; "-nx"; "-n"; ""; "b"]) st0
    = (Ret 0, extend st0 tr)
    /\ written STDOUT tr = "-nx -n  b"
    /\ written STDERR tr = EmptyString.
Proof.
  exact (echo_output (argv ["echo"; "-n"; "-nnn"; "-nx"; "-n"; ""; "b"])
           "echo" ["-n"; "-nnn"] "-nx" ["-n"; ""; "b"] st0
           eq_refl eq_refl eq_refl eq_refl).
Defined.

(** X2: started at a slot of the vector, last_check skips the run of
    flags that begins there and returns the index of the first argument
    that is not a flag, without touching the state; started past the NULL
    that ends the vector it reads out of bounds. *)
Theorem last_check_first_non_flag (cmd : t_cmds) (pre flags : list string)
  (r : string) (rs : list string) (st : state) :
  str cmd = pre ++ flags ++ r :: rs ->
  forallb n_flag flags = true ->
  valid_cstr r = true -> n_flag r = false ->
  last_check (List.length pre) cmd st
  = (Ret (List.length pre + List.length flags)%nat, st)
  /\ forall i, (List.length (str cmd) < i)%nat ->
               last_check i cmd st = (Halt (Crash OutOfBounds), st).
Proof.
  intros Hs Hfl V Hr. split.
  - unfold last_check, bind.
    rewrite (args_from_skip cmd pre (flags ++ r :: rs) st Hs).
    rewrite (last_check_from_flags flags (r :: rs) _ st Hfl).
    now apply last_check_from_stop.
  - intros i Hi. unfold last_check, bind, args_from.
    apply Nat.ltb_lt in Hi. now rewrite Hi.
Qed.

Lemma last_check_first_non_flag_witness :
  last_check 2 (argv ["echo"; "-n"; "-nn"; "-n"; "x"; "-n"]) st0
  = (Ret 4%nat, st0).
Proof.
  exact (proj1 (last_check_first_non_flag
                  (argv ["echo"; "-n"; "-nn"; "-n"; "x"; "-n"])
                  ["echo"; "-n"] ["-nn"; "-n"] "x" ["-n"] st0
                  eq_refl eq_refl eq_refl eq_refl)).
Defined.

(** ** The PATH entry *)

Lemma strncmp_prefix (lit : string) :
  valid_cstr lit = true ->
  forall s, (ft_strncmp s lit (String.length lit) =? 0) = String.prefix lit s.
Proof.
  induction lit as [|a r IH]; intros V s; [now destruct s|].
  cbn [valid_cstr] in V. apply andb_true_iff in V as [Ha V].
  apply negb_true_iff in Ha.
  cbn [String.length]. rewrite ft_strncmp_S, char_at_0. cbn [string_tl].
  destruct s as [|c t].
  - rewrite char_at_empty, Ascii.eqb_sym, Ha. cbn [negb String.prefix].
    apply Z.eqb_neq, code_diff. intros <-. now rewrite Ascii.eqb_refl in Ha.
  - rewrite char_at_0. cbn [string_tl String.prefix].
    destruct (ascii_dec a c) as [<-|Hne].
    + rewrite Ascii.eqb_refl, Ha. cbn [negb]. apply IH, V.
    + replace (Ascii.eqb c a) with false
        by (symmetry; apply Ascii.eqb_neq; congruence).
      cbn [negb]. apply Z.eqb_neq, code_diff. congruence.
Qed.

(** X3: the loop of execute_cmd over the environment stops at the first
    entry that begins with the five bytes PATH= (an entry such as
    PATHEXT=... or MYPATH=... is passed over, a second PATH= entry is
    never reached), and at the NULL that ends the array when there is
    none. *)
Theorem path_entry_first (envp : list string) :
  path_entry envp = find (String.prefix "PATH=") envp.
Proof.
  induction envp as [|e envp IH]; [reflexivity|].
  cbn [path_entry find].
  pose proof (strncmp_prefix "PATH=" eq_refl e) as H.
  change (String.length "PATH=") with 5%nat in H.
  now rewrite H, IH.
Qed.

(** ** Built-ins run by execute_builtin and execute_cmd *)



(** X5: in execute_cmd a built-in never reaches the resolver: when the
    built-in returns, the process exits with the status it recorded in
    g_return_value, in the state the built-in left; when the built-in
    itself ends the process, so does execute_cmd, the same way. *)
Theorem execute_cmd_builtin (E : externals) (A : Type) (cmd : t_cmds)
  (name : string) (rest : list string) (st : state) :
  str cmd = name :: rest -> valid_cstr name = true ->
  In name builtin_names ->
  (forall b st', execute_builtin E cmd st = (Ret b, st') ->
     execute_cmd E (A := A) cmd st
     = (Halt (Exit (g_return_value st')), st'))
  /\ (forall h st', execute_builtin E cmd st = (Halt h, st') ->
        execute_cmd E (A := A) cmd st = (Halt h, st')).
Proof.
  intros Hs V Hin.
  pose proof (execute_builtin_known E cmd name rest st Hs V Hin) as Hb.
  split.
  - intros b st' Hrun. rewrite Hrun in Hb. cbn [fst] in Hb.
    assert (Hb0 : (b =? 0) = false) by (apply Z.eqb_neq; congruence).
    unfold execute_cmd. rewrite (slot0 cmd name rest Hs). unfold bind at 1.
    rewrite Hrun. unfold bind at 1. now rewrite Hb0.
  - intros h st' Hrun.
    unfold execute_cmd. rewrite (slot0 cmd name rest Hs). unfold bind at 1.
    now rewrite Hrun.
Qed.

Lemma execute_cmd_builtin_witness :
  execute_cmd sample_world (A := unit) (argv ["echo"; "hi"]) st0
  = (Halt (Exit 0),
     mk_state (shell st0) 0
       [EvWrite 1 "hi"; EvWrite 1 (String (ascii_of_nat 10) EmptyString)]).
Proof.
  exact (proj1 (execute_cmd_builtin sample_world unit (argv ["echo"; "hi"])
                  "echo" ["hi"] st0 eq_refl eq_refl
                  (or_intror (or_introl eq_refl)))
           1 _ eq_refl).
Defined.

(** ** The path resolver *)

Ltac enter_execute_cmd Hs V Hnb :=
  unfold execute_cmd;
  rewrite (slot0 _ _ _ Hs); unfold bind at 1;
  rewrite (execute_builtin_other _ _ _ _ _ Hs V Hnb);
  unfold bind at 1; cbn [Z.eqb]; unfold bind at 1.

Lemma execute_currdir_false (E : externals) (cmd : t_cmds) (name : string)
  (rest : list string) (st : state) :
  str cmd = name :: rest -> valid_cstr name = true ->
  name <> EmptyString ->
  ft_strchr name "/" = None \/ sys_access E name = false ->
  execute_currdir E cmd st = (Ret false, st).
Proof.
  intros Hs V Hne H. unfold execute_currdir, bind.
  rewrite (arg0 _ _ _ _ Hs), (first_byte name V Hne).
  destruct H as [-> | ->]; [reflexivity | now destruct (ft_strchr name "/")].
Qed.

(** X6: a name with a path separator that is accessible is run as it
    stands, whatever the environment holds: when execve takes it the
    image is replaced and nothing is written, when execve fails the
    process writes "minishell: ", calls perror with the name and exits
    with the status 126; the PATH is not looked at. *)
Theorem literal_path_run (E : externals) (A : Type) (cmd : t_cmds)
  (name : string) (rest : list string) (st : state) :
  str cmd = name :: rest -> valid_cstr name = true ->
  ft_strchr name "/" <> None -> sys_access E name = true ->
  (sys_execve E name (str cmd) (env (shell st)) = true ->
   execute_cmd E (A := A) cmd st = (Halt (Exec name), st))
  /\ (sys_execve E name (str cmd) (env (shell st)) = false ->
      execute_cmd E (A := A) cmd st
      = (Halt (Exit 126),
         extend st [EvWrite STDERR "minishell: "; EvPerror name])).
Proof.
  intros Hs V Hsep Hacc.
  assert (Hne : name <> EmptyString) by (intros ->; now apply Hsep).
  pose proof (separator_not_builtin name Hsep) as Hnb.
  split; intros Hx; enter_execute_cmd Hs V Hnb;
    unfold execute_currdir; unfold bind at 1;
    rewrite (arg0 _ _ _ _ Hs), (first_byte name V Hne);
    (destruct (ft_strchr name "/"); [|contradiction]);
    rewrite Hacc; unfold execve; unfold bind at 1; unfold get_shell;
    rewrite Hx; [reflexivity|].
  unfold bind at 1, ft_putstr_fd. rewrite emit_extend.
  unfold bind at 1, perror. now rewrite emit_extend, extend_extend.
Qed.

Lemma literal_path_run_witness :
  execute_cmd sample_world (A := unit) (argv ["/opt/bin/./tool"; "-v"]) st0
  = (Halt (Exec "/opt/bin/./tool"), st0).
Proof.
  exact (proj1 (literal_path_run sample_world unit
                  (argv ["/opt/bin/./tool"; "-v"]) "/opt/bin/./tool" ["-v"]
                  st0 eq_refl eq_refl
                  (fun H => match H in _ = o return
                                    match o with Some _ => True | None => False end
                            with eq_refl => I end)
                  eq_refl) eq_refl).
Defined.

Lemma ft_execve_loop_skip (E : externals) (cmd : t_cmds) (name : string)
  (rest pre dirs : list string) (st : state) :
  str cmd = name :: rest ->
  (forall dir, In dir pre -> sys_access E (candidate dir name) = false) ->
  ft_execve_loop E cmd (pre ++ dirs) st = ft_execve_loop E cmd dirs st.
Proof.
  intros Hs. induction pre as [|dir pre IH]; intros Hno; [reflexivity|].
  cbn [app ft_execve_loop]. unfold bind at 1. rewrite (arg0 _ _ _ _ Hs).
  fold (candidate dir name). rewrite (Hno dir) by now left.
  apply IH. intros d Hd. apply Hno. now right.
Qed.

(** X7: ft_execve tries the directories in order and settles on the
    first one under which the name is accessible: when execve takes that
    path the image is replaced; when execve fails there the process calls
    perror with the name and exits with -1, and the directories after it
    are not tried. *)
Theorem search_first_accessible (E : externals) (A : Type) (cmd : t_cmds)
  (name : string) (rest pre : list string) (d : string) (post : list string)
  (st : state) :
  str cmd = name :: rest ->
  (forall dir, In dir pre -> sys_access E (candidate dir name) = false) ->
  sys_access E (candidate d name) = true ->
  (sys_execve E (candidate d name) (str cmd) (env (shell st)) = true ->
   ft_execve E (A := A) cmd (Some (pre ++ d :: post)) st
   = (Halt (Exec (candidate d name)), st))
  /\ (sys_execve E (candidate d name) (str cmd) (env (shell st)) = false ->
      ft_execve E (A := A) cmd (Some (pre ++ d :: post)) st
      = (Halt (Exit (-1)), extend st [EvPerror name])).
Proof.
  intros Hs Hno Hacc.
  split; intros Hx; unfold ft_execve; unfold bind at 1;
    rewrite (ft_execve_loop_skip E cmd name rest pre (d :: post) st Hs Hno);
    cbn [ft_execve_loop]; unfold bind at 1; rewrite (arg0 _ _ _ _ Hs);
    fold (candidate d name); rewrite Hacc;
    unfold execve, bind, get_shell; now rewrite Hx.
Qed.

Lemma search_first_accessible_witness :
  ft_execve sample_world (A := unit) (argv ["./tool"])
    (Some ["/bin"; "/usr/bin"; "/opt/bin"; "/sbin"]) st0
  = (Halt (Exec "/opt/bin/./tool"), st0).
Proof.
  refine (proj1 (search_first_accessible sample_world unit (argv ["./tool"])
                   "./tool" [] ["/bin"; "/usr/bin"] "/opt/bin" ["/sbin"] st0
                   eq_refl _ eq_refl) eq_refl).
  intros dir [<-|[<-|[]]]; reflexivity.
Defined.

(** X8: for a command that is not a built-in and that execute_currdir
    does not run (no separator in the name, or a literal path that is not
    accessible), execute_cmd searches the directories that ft_split makes
    of the text after PATH= in the first PATH= entry of the environment,
    and the image is replaced by the first accessible candidate. *)
Theorem execute_cmd_path_found (E : externals) (A : Type) (cmd : t_cmds)
  (name : string) (rest envp pre : list string) (d : string)
  (post : list string) (st : state) :
  str cmd = name :: rest -> valid_cstr name = true ->
  name <> EmptyString -> ~ In name builtin_names ->
  ft_strchr name "/" = None \/ sys_access E name = false ->
  env (shell st) = Some envp ->
  search_dirs E envp = pre ++ d :: post ->
  (forall dir, In dir pre -> sys_access E (candidate dir name) = false) ->
  sys_access E (candidate d name) = true ->
  sys_execve E (candidate d name) (str cmd) (env (shell st)) = true ->
  execute_cmd E (A := A) cmd st = (Halt (Exec (candidate d name)), st).
Proof.
  intros Hs V Hne Hnb Hcur Henv Hdirs Hno Hacc Hx.
  enter_execute_cmd Hs V Hnb.
  rewrite (execute_currdir_false E cmd name rest st Hs V Hne Hcur).
  cbn [negb]. unfold bind at 1, get_shell. rewrite Henv.
  unfold search_dirs in Hdirs. unfold bind at 1.
  destruct (path_entry envp) as [e|]; [|now destruct pre].
  rewrite Hdirs. unfold ft_execve. unfold bind at 1.
  rewrite (ft_execve_loop_skip E cmd name rest pre (d :: post) st Hs Hno).
  cbn [ft_execve_loop]. unfold bind at 1. rewrite (arg0 _ _ _ _ Hs).
  fold (candidate d name). rewrite Hacc.
  unfold execve, bind, get_shell. now rewrite Hx.
Qed.

Lemma execute_cmd_path_found_witness :
  execute_cmd sample_world (A := unit) (argv ["./tool"; "x"])
    (session [] ["HOME=/home"; "MYPATH=/bin"; "PATH=/opt/bin"; "PATH=/bin"])
  = (Halt (Exec "/opt/bin/./tool"),
     session [] ["HOME=/home"; "MYPATH=/bin"; "PATH=/opt/bin"; "PATH=/bin"]).
Proof.
  refine (execute_cmd_path_found sample_world unit (argv ["./tool"; "x"])
            "./tool" ["x"]
            ["HOME=/home"; "MYPATH=/bin"; "PATH=/opt/bin"; "PATH=/bin"]
            [] "/opt/bin" []
            (session [] ["HOME=/home"; "MYPATH=/bin"; "PATH=/opt/bin";
                         "PATH=/bin"])
            eq_refl eq_refl _ _ (or_intror eq_refl)
            eq_refl eq_refl _ eq_refl eq_refl).
  - discriminate.
  - cbn. intuition discriminate.
  - intros dir [].
Defined.

(** X9: with a NULL environment array, a command that is not a built-in
    and that execute_currdir does not run ends on a read through NULL:
    the loop that looks for PATH tests the array, the test of the entry
    after the loop does not. *)
Theorem execute_cmd_null_env (E : externals) (A : Type) (cmd : t_cmds)
  (name : string) (rest : list string) (st : state) :
  str cmd = name :: rest -> valid_cstr name = true ->
  name <> EmptyString -> ~ In name builtin_names ->
  ft_strchr name "/" = None \/ sys_access E name = false ->
  env (shell st) = None ->
  execute_cmd E (A := A) cmd st = (Halt (Crash NullDeref), st).
Proof.
  intros Hs V Hne Hnb Hcur Henv.
  enter_execute_cmd Hs V Hnb.
  rewrite (execute_currdir_false E cmd name rest st Hs V Hne Hcur).
  cbn [negb]. unfold bind at 1, get_shell. now rewrite Henv.
Qed.

Lemma execute_cmd_null_env_witness :
  execute_cmd sample_world (A := unit) (argv ["ls"])
    (mk_state (mk_shell [] None false) 0 [])
  = (Halt (Crash NullDeref), mk_state (mk_shell [] None false) 0 []).
Proof.
  refine (execute_cmd_null_env sample_world unit (argv ["ls"]) "ls" []
            (mk_state (mk_shell [] None false) 0 [])
            eq_refl eq_refl _ _ (or_introl eq_refl) eq_refl).
  - discriminate.
  - cbn. intuition discriminate.
Defined.

(** ** The single-command fast path *)



Lemma single_cmd_on_builtin (E : externals) (st : state) (c : t_cmds)
  (others : list t_cmds) (name : string) (rest : list string) :
  cmds (shell st) = c :: others ->
  str c = name :: rest -> valid_cstr name = true ->
  In name builtin_names ->
  fst (single_cmd E st) <> Ret false.
Proof.
  intros Hc Hs V Hin.
  unfold single_cmd. unfold bind at 1, get_shell. rewrite Hc.
  unfold bind at 1. rewrite (is_builtin_names c name rest st Hs V).
  rewrite (proj2 (existsb_names name) Hin).
  unfold bind, ret.
  repeat match goal with
         | |- context [match ?x with _ => _ end] =>
             lazymatch x with
             | context [match _ with _ => _ end] => fail
             | _ => destruct x
             end
         end; cbn; discriminate.
Qed.

(** X11: on a pipeline of one stage that is a built-in, execute ends
    with single_cmd: what single_cmd leaves is what execute leaves, the
    loop over the stages and the reaping pass are not entered. *)
Theorem execute_single_builtin (E : externals) (st st1 : state) (c : t_cmds)
  (name : string) (rest : list string) :
  handle_heredocs E st = (Ret tt, st1) ->
  cmds (shell st1) = [c] ->
  str c = name :: rest -> valid_cstr name = true ->
  In name builtin_names ->
  snd (execute E st) = snd (single_cmd E st1)
  /\ (forall st2, single_cmd E st1 = (Ret true, st2) ->
                  execute E st = (Ret tt, st2))
  /\ (forall h st2, single_cmd E st1 = (Halt h, st2) ->
                    execute E st = (Halt h, st2)).
Proof.
  intros Hh Hc Hs V Hin.
  pose proof (single_cmd_on_builtin E st1 c [] name rest Hc Hs V Hin) as Hnf.
  assert (Hex : execute E st
                = (let (r, st2) := single_cmd E st1 in
                   match r with
                   | Ret true => (Ret tt, st2)
                   | Ret false => (execute_loop [c] (-1) ;; ft_waitpid E) st2
                   | Halt h => (Halt h, st2)
                   end)).
  { unfold execute. unfold bind at 1. rewrite Hh.
    unfold bind at 1, get_shell. rewrite Hc. unfold bind at 1.
    destruct (single_cmd E st1) as [[[|]|h] st2]; reflexivity. }
  rewrite Hex. destruct (single_cmd E st1) as [[[|]|h] st2]; cbn [fst snd] in *.
  - repeat split; congruence.
  - contradiction.
  - repeat split; congruence.
Qed.

Lemma execute_single_builtin_witness :
  let st := session [argv ["echo"; "hi"]] [] in
  execute sample_world_no_redirection st
  = (Ret tt,
     extend st [EvDup 0 10; EvDup 1 11;
                EvDup2 10 0; EvClose 10; EvDup2 11 1; EvClose 11]).
Proof.
  exact (proj1 (proj2 (execute_single_builtin sample_world_no_redirection
                         (session [argv ["echo"; "hi"]] [])
                         (session [argv ["echo"; "hi"]] [])
                         (argv ["echo"; "hi"]) "echo" ["hi"]
                         eq_refl eq_refl eq_refl eq_refl
                         (or_intror (or_introl eq_refl))))
           _ eq_refl).
Defined.

(** X12: on a pipeline of one stage that is not a built-in, entered with
    the stop flag false, single_cmd changes nothing and execute goes
    through the loop once and waits once: it closes -1 and the write end
    recorded in the stage, waits for the pid recorded in the stage, and
    leaves the exit code of that process when it exited normally. *)
Theorem execute_single_external (E : externals) (st st1 : state) (c : t_cmds)
  (name : string) (rest : list string) :
  handle_heredocs E st = (Ret tt, st1) ->
  cmds (shell st1) = [c] ->
  str c = name :: rest -> valid_cstr name = true ->
  ~ In name builtin_names ->
  stop (shell st1) = false ->
  fst (execute E st) = Ret tt
  /\ trace (snd (execute E st))
     = trace st1 ++ [EvClose (-1); EvClose (snd (pipefd c)); EvWaitpid (pid c)]
  /\ (exited E c = true ->
      g_return_value (snd (execute E st))
      = WEXITSTATUS (sys_waitpid E (pid c))).
Proof.
  intros Hh Hc Hs V Hnb Hstop.
  assert (Hex : execute E st
                = ft_waitpid_loop E [c]
                    (extend st1 [EvClose (-1); EvClose (snd (pipefd c))])).
  { unfold execute. unfold bind at 1. rewrite Hh.
    unfold bind at 1, get_shell. rewrite Hc. unfold bind at 1.
    unfold single_cmd. unfold bind at 1, get_shell. rewrite Hc.
    unfold bind at 1. rewrite (is_builtin_names c name rest st1 Hs V).
    replace (existsb (String.eqb name) builtin_names) with false.
    2:{ symmetry. apply not_true_is_false. intros H.
        now apply existsb_names in H. }
    unfold ret at 1. unfold bind at 1.
    rewrite (execute_loop_run [c] (-1) st1 Hstop). cbn [launch_events].
    rewrite ft_waitpid_run. unfold extend at 1. cbn [shell]. now rewrite Hc. }
  rewrite Hex.
  pose proof (ft_waitpid_loop_frame E [c]
                (extend st1 [EvClose (-1); EvClose (snd (pipefd c))]))
    as [Hret [_ [_ [Ht _]]]].
  split; [exact Hret|]. split.
  - rewrite Ht. unfold extend. cbn [trace wait_events map].
    now rewrite <- app_assoc.
  - intros Hx. now apply (ft_waitpid_loop_last_exited E [] c).
Qed.

Lemma execute_single_external_witness :
  let st := session [stage "false" 7 8 101] [] in
  trace (snd (execute sample_world st))
  = [EvClose (-1); EvClose 8; EvWaitpid 101]
  /\ g_return_value (snd (execute sample_world st)) = 1.
Proof.
  pose proof (execute_single_external sample_world
                (session [stage "false" 7 8 101] [])
                (session [stage "false" 7 8 101] [])
                (stage "false" 7 8 101) "false" [] eq_refl eq_refl eq_refl
                eq_refl) as H.
  destruct H as [_ [Ht Hg]]; [cbn; intuition discriminate | reflexivity |].
  split; [exact Ht | exact (Hg eq_refl)].
Defined.

(** X13: a pipeline of one stage with no argv[0] (a command line made
    of redirections only) does not reach the guard of execute_cmd that
    exits with 0: execute asks single_cmd, and is_builtin hands the NULL
    in the slot 0 to ft_strncmp.  The same holds for an empty pipeline,
    where execute reads the next link of a NULL stage. *)
Theorem execute_empty_argv_faults (E : externals) (st st1 : state) :
  handle_heredocs E st = (Ret tt, st1) ->
  (forall c, cmds (shell st1) = [c] -> str c = [] ->
             execute E st = (Halt (Crash NullDeref), st1))
  /\ (cmds (shell st1) = [] -> execute E st = (Halt (Crash NullDeref), st1)).
Proof.
  intros Hh. split.
  - intros c Hc Hs. unfold execute. unfold bind at 1. rewrite Hh.
    unfold bind at 1, get_shell. rewrite Hc. unfold bind at 1.
    unfold single_cmd. unfold bind at 1, get_shell. rewrite Hc.
    unfold bind at 1, is_builtin. unfold bind at 1, arg, slot_at.
    now rewrite Hs.
  - intros Hc. unfold execute. unfold bind at 1. rewrite Hh.
    unfold bind at 1, get_shell. now rewrite Hc.
Qed.

Lemma execute_empty_argv_faults_witness :
  execute sample_world (session [argv []] [])
  = (Halt (Crash NullDeref), session [argv []] []).
Proof.
  exact (proj1 (execute_empty_argv_faults sample_world
                  (session [argv []] []) (session [argv []] []) eq_refl)
           (argv []) eq_refl eq_refl).
Defined.

(** ** The exit-status collector *)

Lemma collect_status_mapped (E : externals) (c : t_cmds) (st : state) :
  mapped E c = true ->
  g_return_value (snd (collect_status (sys_waitpid E (pid c)) st))
  = stage_status E c.
Proof.
  unfold mapped, stage_status, exited, killed_by. intros H.
  destruct (WIFEXITED (sys_waitpid E (pid c))) eqn:He.
  - now apply collect_status_exited.
  - cbn [orb] in H.
    destruct (WIFSIGNALED (sys_waitpid E (pid c))) eqn:Hsig;
      [|discriminate].
    rewrite (collect_status_signal _ _ Hsig). cbn [andb] in *.
    destruct (WTERMSIG (sys_waitpid E (pid c)) =? SIGINT); [reflexivity|].
    cbn [orb] in H. now rewrite H.
Qed.

Lemma collect_status_unmapped (E : externals) (c : t_cmds) (st : state) :
  mapped E c = false ->
  g_return_value (snd (collect_status (sys_waitpid E (pid c)) st))
  = g_return_value st.
Proof.
  unfold mapped, exited, killed_by. intros H.
  apply orb_false_iff in H as [H Hq]. apply orb_false_iff in H as [He Hi].
  destruct (WIFSIGNALED (sys_waitpid E (pid c))) eqn:Hsig.
  - rewrite (collect_status_signal _ _ Hsig). cbn [andb] in Hi, Hq.
    now rewrite Hi, Hq.
  - unfold collect_status, bind, set_status, get_status, set_stop, ret.
    rewrite He, Hsig. cbn -[Z.eqb orb]. now destruct (_ || _).
Qed.

Lemma ft_waitpid_loop_unmapped (E : externals) (back : list t_cmds) :
  forall st,
    forallb (fun x => negb (mapped E x)) back = true ->
    g_return_value (snd (ft_waitpid_loop E back st)) = g_return_value st.
Proof.
  induction back as [|c back IH]; intros st H; [reflexivity|].
  cbn [forallb] in H. apply andb_true_iff in H as [Hc H].
  apply negb_true_iff in Hc.
  rewrite ft_waitpid_loop_cons, (IH _ H).
  now rewrite (collect_status_unmapped E c _ Hc).
Qed.

(** X14: the status the reaping pass leaves is that of the last stage
    whose end it maps (a normal exit, a death by SIGINT or by SIGQUIT):
    the stages after it, ended in a way the pass does not map, leave it in
    place; and when no stage of the pipeline is mapped, the status is the
    one recorded before the pass. *)
Theorem status_of_last_mapped (E : externals) (st : state) :
  (forall front c back,
      cmds (shell st) = front ++ c :: back ->
      mapped E c = true ->
      forallb (fun x => negb (mapped E x)) back = true ->
      g_return_value (snd (ft_waitpid E st)) = stage_status E c)
  /\ (forallb (fun x => negb (mapped E x)) (cmds (shell st)) = true ->
      g_return_value (snd (ft_waitpid E st)) = g_return_value st).
Proof.
  split.
  - intros front c back Hc Hm Hback. rewrite ft_waitpid_run, Hc.
    rewrite ft_waitpid_loop_app, ft_waitpid_loop_cons.
    rewrite (ft_waitpid_loop_unmapped E back _ Hback).
    now apply collect_status_mapped.
  - intros H. rewrite ft_waitpid_run.
    now apply ft_waitpid_loop_unmapped.
Qed.

Lemma status_of_last_mapped_witness :
  g_return_value
    (snd (ft_waitpid sample_world
            (session [stage "a" 0 0 102; stage "b" 0 0 105; stage "c" 0 0 104]
               [])))
  = 130
  /\ g_return_value
       (snd (ft_waitpid sample_world
               (mk_state (mk_shell [stage "c" 0 0 104] (Some []) false) 7 [])))
     = 7.
Proof.
  split.
  - exact (proj1 (status_of_last_mapped sample_world
                    (session [stage "a" 0 0 102; stage "b" 0 0 105;
                              stage "c" 0 0 104] []))
             [stage "a" 0 0 102] (stage "b" 0 0 105) [stage "c" 0 0 104]
             eq_refl eq_refl eq_refl).
  - exact (proj2 (status_of_last_mapped sample_world
                    (mk_state (mk_shell [stage "c" 0 0 104] (Some []) false)
                       7 []))
             eq_refl).
Defined.

Lemma ft_waitpid_loop_quiet (E : externals) (curr : list t_cmds) :
  forall st,
    forallb (exits_quietly E) curr = true ->
    stop (shell (snd (ft_waitpid_loop E curr st))) = stop (shell st).
Proof.
  induction curr as [|c next IH]; intros st H; [reflexivity|].
  cbn [forallb] in H. apply andb_true_iff in H as [Hc H].
  unfold exits_quietly, exited in Hc.
  apply andb_true_iff in Hc as [Hc H131]. apply andb_true_iff in Hc as [He H130].
  apply negb_true_iff in H130, H131.
  rewrite ft_waitpid_loop_cons, (IH _ H), collect_status_stop.
  rewrite (collect_status_exited _ _ He), H130, H131.
  unfold extend. cbn [shell]. now rewrite !orb_false_r.
Qed.

(** X15: a pipeline whose stages all exit normally with codes other than
    130 and 131 leaves the stop flag as it was, whatever status was
    recorded before the pass: the reaping pass does not set the flag on a
    status left by an earlier command when a stage has replaced it. *)
Theorem quiet_pipeline_keeps_stop (E : externals) (st : state) :
  forallb (exits_quietly E) (cmds (shell st)) = true ->
  stop (shell (snd (ft_waitpid E st))) = stop (shell st).
Proof. intros H. rewrite ft_waitpid_run. now apply ft_waitpid_loop_quiet. Qed.

Lemma quiet_pipeline_keeps_stop_witness :
  stop (shell (snd (ft_waitpid sample_world
                      (mk_state
                         (mk_shell [stage "false" 0 0 101; stage "true" 0 0 102]
                            (Some []) false)
                         130 []))))
  = false.
Proof.
  exact (quiet_pipeline_keeps_stop sample_world
           (mk_state
              (mk_shell [stage "false" 0 0 101; stage "true" 0 0 102]
                 (Some []) false)
              130 [])
           eq_refl).
Defined.

(** ** The descriptors closed by execute *)

Lemma launch_events_last (front : list t_cmds) (cn : t_cmds) :
  forall prev_fd,
    launch_events prev_fd (front ++ [cn])
    = EvClose prev_fd
      :: flat_map stage_closes front ++ [EvClose (snd (pipefd cn))].
Proof.
  induction front as [|c front IH]; intros prev_fd; [reflexivity|].
  cbn [app launch_events flat_map stage_closes]. now rewrite IH.
Qed.

(** X16: on a pipeline of two stages or more entered with the stop flag
    false, execute closes, before the first wait, the descriptor -1, then
    for every stage but the last its recorded write end and read end, then
    the write end recorded in the last stage; the read end recorded in the
    last stage is the one descriptor of the stages it does not close. *)
Theorem execute_closes (E : externals) (st st1 : state)
  (c1 : t_cmds) (mid : list t_cmds) (cn : t_cmds) :
  handle_heredocs E st = (Ret tt, st1) ->
  cmds (shell st1) = c1 :: mid ++ [cn] ->
  stop (shell st1) = false ->
  trace (snd (execute E st))
  = trace st1
    ++ EvClose (-1)
       :: flat_map stage_closes (c1 :: mid)
    ++ EvClose (snd (pipefd cn))
       :: wait_events (c1 :: mid ++ [cn]).
Proof.
  intros Hh Hc Hstop.
  assert (Hex : execute E st
                = ft_waitpid_loop E (c1 :: mid ++ [cn])
                    (extend st1 (launch_events (-1) (c1 :: mid ++ [cn])))).
  { destruct mid as [|c2 mid'].
    - rewrite (execute_pipeline E st st1 c1 cn [] Hh Hc). now rewrite Hstop.
    - rewrite (execute_pipeline E st st1 c1 c2 (mid' ++ [cn]) Hh Hc).
      now rewrite Hstop. }
  rewrite Hex.
  pose proof (ft_waitpid_loop_frame E (c1 :: mid ++ [cn])
                (extend st1 (launch_events (-1) (c1 :: mid ++ [cn]))))
    as [_ [_ [_ [Ht _]]]].
  rewrite Ht. unfold extend. cbn [trace].
  change (c1 :: mid ++ [cn]) with ((c1 :: mid) ++ [cn]) at 1.
  rewrite launch_events_last, <- !app_assoc. cbn [app].
  now rewrite <- app_assoc.
Qed.

Lemma execute_closes_witness :
  trace (snd (execute sample_world
                (session [stage "a" 3 4 101; stage "b" 5 6 102;
                          stage "c" 7 8 102] [])))
  = [EvClose (-1); EvClose 4; EvClose 3; EvClose 6; EvClose 5; EvClose 8;
     EvWaitpid 101; EvWaitpid 102; EvWaitpid 102].
Proof.
  exact (execute_closes sample_world
           (session [stage "a" 3 4 101; stage "b" 5 6 102; stage "c" 7 8 102] [])
           (session [stage "a" 3 4 101; stage "b" 5 6 102; stage "c" 7 8 102] [])
           (stage "a" 3 4 101) [stage "b" 5 6 102] (stage "c" 7 8 102)
           eq_refl eq_refl eq_refl).
Defined.

(** ** A bare name that no directory of PATH holds *)

(** X17: for a command that is not a built-in, whose name is not empty
    and has no path separator, run with a PATH entry in the environment
    under none of whose directories the name is accessible, the process
    writes "minishell: <name>: command not found" on the standard error,
    nothing else, and exits with the status 127, leaving the shell and the
    recorded status as they were. *)
Theorem bare_name_not_in_path (E : externals) (A : Type) (cmd : t_cmds)
  (name : string) (rest envp : list string) (st : state) :
  str cmd = name :: rest -> valid_cstr name = true ->
  name <> EmptyString -> ~ In name builtin_names ->
  ft_strchr name "/" = None ->
  env (shell st) = Some envp ->
  (forall dir, In dir (search_dirs E envp) ->
               sys_access E (candidate dir name) = false) ->
  execute_cmd E (A := A) cmd st
  = (Halt (Exit 127),
     extend st [EvWrite STDERR "minishell: "; EvWrite STDERR name;
                EvWrite STDERR (String.append ": command not found" nl)]).
Proof.
  intros Hs V Hne Hnb Hsep Henv Hno.
  enter_execute_cmd Hs V Hnb.
  rewrite (execute_currdir_false E cmd name rest st Hs V Hne (or_introl Hsep)).
  cbn [negb]. unfold bind at 1, get_shell. rewrite Henv.
  unfold search_dirs in Hno. unfold bind at 1.
  assert (Hfinal : forall path,
             (forall dirs dir, path = Some dirs -> In dir dirs ->
                               sys_access E (candidate dir name) = false) ->
             ft_execve E (A := unit) cmd path st
             = (Halt (Exit 127),
                extend st [EvWrite STDERR "minishell: "; EvWrite STDERR name;
                           EvWrite STDERR
                             (String.append ": command not found" nl)])).
  { intros path Hp. unfold ft_execve. unfold bind at 1.
    replace (match path with
             | Some dirs => ft_execve_loop E cmd dirs
             | None => ret tt
             end st) with (@Ret unit tt, st).
    2:{ destruct path as [dirs|]; [|reflexivity]. symmetry.
        apply (ft_execve_loop_none E cmd name rest dirs st Hs).
        intros dir Hd. now apply (Hp dirs). }
    unfold bind at 1. rewrite (arg0 _ _ _ _ Hs).
    unfold bind, ft_putstr_fd, exit, halt_with.
    now rewrite !emit_extend, !extend_extend. }
  destruct (path_entry envp) as [e|].
  - rewrite Hfinal; [reflexivity|]. intros dirs dir [= <-]. apply Hno.
  - unfold ret at 1. unfold bind at 1. rewrite Hfinal; [reflexivity|].
    discriminate.
Qed.

Lemma bare_name_not_in_path_witness :
  execute_cmd sample_world (A := unit) (argv ["tool"; "-v"])
    (session [] ["PATH=/bin"])
  = (Halt (Exit 127),
     extend (session [] ["PATH=/bin"])
       [EvWrite STDERR "minishell: "; EvWrite STDERR "tool";
        EvWrite STDERR (String.append ": command not found" nl)]).
Proof.
  refine (bare_name_not_in_path sample_world unit (argv ["tool"; "-v"])
            "tool" ["-v"] ["PATH=/bin"] (session [] ["PATH=/bin"])
            eq_refl eq_refl _ _ eq_refl eq_refl _).
  - discriminate.
  - cbn. intuition discriminate.
  - intros dir [<-|[]]. reflexivity.
Defined.
